(** * Smile-activated robot controller: a shallow embedding of
    [src/config.py] and [src/smile_robot.py], and the properties of the
    Movement Engine and the Command Router proved on it.

    Python objects become records, methods become functions in a small
    state-and-exception monad over the whole program state, and the
    threads the program starts become tasks of an interleaving machine
    whose steps are the statements that read or write the shared flags. *)

From Stdlib Require Import ZArith List Ascii String Bool Floats Sorted Permutation Lia.
From Stdlib Require Import RelationClasses.
Import ListNotations.

Set Implicit Arguments.
Set Warnings "-register-all".

Open Scope string_scope.
Open Scope list_scope.
Open Scope Z_scope.

(** ** config.py *)

Module Config.

Definition SERVO_PAIRS : list (Z * Z) := [(1, 8); (3, 5); (6, 7); (4, 2)].
Definition ALL_SERVOS : list Z := [1; 2; 3; 4; 5; 6; 7; 8; 9; 10].
Definition CENTER_ANGLE : float := 120%float.
Definition REVERSED : list Z := [3; 4; 7; 8; 1; 6].

End Config.

(** ** Values, events and the program state *)

(** The exceptions the program can meet. *)
Inductive exn :=
| DeviceError            (* a call on the actuator bus, or a send, failed *)
| KeyError
| ValueError
| TypeError
| OverflowError
| FileNotFoundError
| AttributeError
| UnicodeEncodeError
| JSONDecodeError.

(** A decoded JSON value, as [json.loads] returns it, or a value the
    program puts in a reply. *)
Inductive pyval :=
| PNone
| PBool (b : bool)
| PInt (n : Z)
| PFloat (x : float)
| PStr (s : string)
| PSeconds (micros : Z)   (* the float [timedelta.total_seconds()] of that many microseconds *)
| PErrorText (x : exn)    (* the string [str(e)] of an exception of that class *)
| PList (l : list pyval)
| PDict (d : list (string * pyval)).

(** Everything the program does to the outside world, and every write
    of the two flags of the engine, in the order it happens. A Python
    [float] is an IEEE binary64 number: Rocq's primitive [float]. *)
Inductive event :=
| Initialize (port : string)              (* LX16A.initialize(port) *)
| NewServo (sid : Z)                      (* LX16A(sid) *)
| EnableTorque (sid : Z)
| DisableTorque (sid : Z)
| Move (sid : Z) (angle : float)          (* servo.move(angle) *)
| CloseBus                                (* LX16A._controller.close() *)
| Sleep (ms : Z)                          (* time.sleep, in milliseconds *)
| Assign_is_moving (b : bool)             (* self.is_moving = b *)
| Assign_current_action (a : option string)
| Send (client : nat) (payload : pyval).  (* client.send(json.dumps(payload)) *)

Inductive motion := Wave | Nod | Dance.

(** What a motion thread is playing: a stored sequence or a built-in. *)
Inductive kind :=
| K_play (seq_file name : string)
| K_simple (m : motion).

(** A thread of the program, by the statement it is about to execute.
    Every assignment of [is_moving] or [current_action] is a step of
    its own, and so is every test of [is_moving]. What lies between
    two of them writes neither flag, and the machine runs it without
    interruption: the call of [play_sequence] by [run_action] (test,
    look-up of the file, start of the thread) and the body of a motion
    (its moves and sleeps). *)
Inductive task :=
| T_run_action (action : string)  (* run_action: before its call of play_sequence *)
| T_simple (m : motion)           (* before the guard of simple_wave/nod/dance *)
| T_set_moving (k : kind)         (* before  self.is_moving = True *)
| T_set_action (k : kind)         (* before  self.current_action = <name> *)
| T_body (k : kind)               (* before the rest of the try block *)
| T_clear_moving                  (* finally: before  self.is_moving = False *)
| T_clear_action                  (* finally: before  self.current_action = None *)
| T_done.

Record RobotController := {
  servos : list Z;                  (* the keys of self.servos, in insertion order *)
  is_moving : bool;
  current_action : option string;
  connected : bool
}.

Record Stats := {
  total_smiles : Z;
  total_movements : Z;
  start_time : Z;                   (* datetime values, in microseconds *)
  last_smile : option Z
}.

Record state := {
  robot : RobotController;
  clients : list nat;
  stats : Stats;
  trace : list event;
  threads : list task               (* the threads started so far *)
}.

(** One record of a sequence file, after [int(row['frame'])],
    [int(row['servo_id'])] and [float(row['angle'])]: [None] where the
    conversion raises. *)
Record csv_row := {
  row_frame : option Z;
  row_servo_id : option Z;
  row_angle : option float
}.

(** A decoded request. [msg_command] is [data.get('command')];
    [msg_smile_score] and [msg_action] are the values under the keys
    ['smile_score'] and ['action'] when the object has them. The score
    is any JSON value; the action is a string. *)
Record message := {
  msg_command : option string;
  msg_smile_score : option pyval;
  msg_action : option string
}.

(** [data.get('smile_score', 0)] and [data.get('action', 'wave')]. *)
Definition score_of (data : message) : pyval :=
  match msg_smile_score data with Some v => v | None => PInt 0 end.

Definition action_of (data : message) : string :=
  match msg_action data with Some a => a | None => "wave" end.

(** [command == literal] *)
Definition command_is (command : option string) (literal : string) : bool :=
  match command with
  | Some c => String.eqb c literal
  | None => false
  end.

(** A text frame received from a client, after [json.loads]. *)
Inductive inbound :=
| Undecodable                 (* json.loads raises *)
| Not_an_object               (* a JSON value without a [get] method *)
| Decoded (data : message).

(** The moves of the interleaving machine: thread [i] executes its next
    step; the server accepts a client, handles a message or loses a
    client; or a method of the engine is called ([Simple m] starts a
    thread that calls the built-in motion [m]). A handler and a method
    run without interruption. *)
Inductive label :=
| Run (i : nat)
| Accept (c : nat) (now : Z)
| Receive (c : nat) (raw : inbound) (now : Z)
| Close (c : nat)
| Connect
| Play_sequence (name : string)
| Simple (m : motion)
| Emergency_stop
| Disconnect.

(** What the program does not decide: whether a call on the actuator
    bus or a send to a client raises (given everything that happened
    before), the sequence files on disk, and the place of each client
    in an iteration of the set [self.clients] (the order of a Python
    set is that of its hash table). *)
Record env := {
  bus : list event -> event -> bool;
  files : string -> option (list csv_row);
  slot : list event -> nat -> Z
}.

Inductive result (A : Type) :=
| Ok (a : A)
| Raise (x : exn).
Arguments Ok {A} a.
Arguments Raise {A} x.

(** ** The monad: state passing, with Python's exceptions *)

Definition M (A : Type) : Type := state -> result A * state.

Definition ret {A} (a : A) : M A := fun s => (Ok a, s).

Definition bind {A B} (m : M A) (k : A -> M B) : M B :=
  fun s => match m s with
           | (Ok a, s') => k a s'
           | (Raise x, s') => (Raise x, s')
           end.

Definition raise {A} (x : exn) : M A := fun s => (Raise x, s).

(** [try: m  except Exception: h] *)
Definition try_except {A} (m : M A) (h : exn -> M A) : M A :=
  fun s => match m s with
           | (Ok a, s') => (Ok a, s')
           | (Raise x, s') => h x s'
           end.

(** [try: m  finally: f] *)
Definition try_finally {A} (m : M A) (f : M unit) : M A :=
  fun s => match m s with
           | (r, s') => match f s' with
                        | (Ok _, s'') => (r, s'')
                        | (Raise x, s'') => (Raise x, s'')
                        end
           end.

Declare Scope py_scope.
Delimit Scope py_scope with py.
Notation "x <- m ;; k" := (bind m (fun x => k))
  (at level 61, m at next level, right associativity) : py_scope.
Notation "m ;; k" := (bind m (fun _ => k))
  (at level 61, right associativity) : py_scope.
Open Scope py_scope.

Definition pass : exn -> M unit := fun _ => ret tt.

Fixpoint for_each {A} (l : list A) (body : A -> M unit) : M unit :=
  match l with
  | [] => ret tt
  | x :: l' => body x ;; for_each l' body
  end.

(** [for _ in range(n): body] *)
Fixpoint repeat_n (n : nat) (body : M unit) : M unit :=
  match n with
  | O => ret tt
  | S n' => body ;; repeat_n n' body
  end.

Fixpoint enumerate_from {A} (i : nat) (l : list A) : list (nat * A) :=
  match l with
  | [] => []
  | x :: l' => (i, x) :: enumerate_from (S i) l'
  end.

Definition enumerate {A} (l : list A) : list (nat * A) := enumerate_from 0 l.

(** ** Field updates *)

Definition set_servos (v : list Z) (r : RobotController) : RobotController :=
  {| servos := v; is_moving := is_moving r;
     current_action := current_action r; connected := connected r |}.

Definition set_is_moving (v : bool) (r : RobotController) : RobotController :=
  {| servos := servos r; is_moving := v;
     current_action := current_action r; connected := connected r |}.

Definition set_current_action (v : option string) (r : RobotController)
  : RobotController :=
  {| servos := servos r; is_moving := is_moving r;
     current_action := v; connected := connected r |}.

Definition set_connected (v : bool) (r : RobotController) : RobotController :=
  {| servos := servos r; is_moving := is_moving r;
     current_action := current_action r; connected := v |}.

Definition with_robot (r : RobotController) (s : state) : state :=
  {| robot := r; clients := clients s; stats := stats s;
     trace := trace s; threads := threads s |}.

Definition with_stats (st : Stats) (s : state) : state :=
  {| robot := robot s; clients := clients s; stats := st;
     trace := trace s; threads := threads s |}.

Definition with_threads (ts : list task) (s : state) : state :=
  {| robot := robot s; clients := clients s; stats := stats s;
     trace := trace s; threads := ts |}.

(** The state after the events [evs] have happened. *)
Definition emit (evs : list event) (s : state) : state :=
  {| robot := robot s; clients := clients s; stats := stats s;
     trace := trace s ++ evs; threads := threads s |}.

(** ** Python containers *)

(** [d[k] = v] on a dict kept as an association list in insertion
    order: an existing key keeps its place. *)
Fixpoint dict_set {V} (k : Z) (v : V) (d : list (Z * V)) : list (Z * V) :=
  match d with
  | [] => [(k, v)]
  | (k', v') :: d' =>
      if k =? k' then (k, v) :: d' else (k', v') :: dict_set k v d'
  end.

Fixpoint dict_find {V} (k : Z) (d : list (Z * V)) : option V :=
  match d with
  | [] => None
  | (k', v) :: d' => if k =? k' then Some v else dict_find k d'
  end.

Definition keys {V} (d : list (Z * V)) : list Z := map fst d.

(** [k in l] *)
Definition mem (k : Z) (l : list Z) : bool := existsb (Z.eqb k) l.

(** [d.get(k, default)] on a dict with string keys. *)
Fixpoint str_get {V} (d : list (string * V)) (k : string) (default : V) : V :=
  match d with
  | [] => default
  | (k', v) :: d' => if String.eqb k k' then v else str_get d' k default
  end.

Fixpoint insert_sorted (x : Z) (l : list Z) : list Z :=
  match l with
  | [] => [x]
  | y :: l' => if x <=? y then x :: l else y :: insert_sorted x l'
  end.

(** [sorted(l)] on integers. *)
Fixpoint sorted (l : list Z) : list Z :=
  match l with
  | [] => []
  | x :: l' => insert_sorted x (sorted l')
  end.

(** The elements of a set in the order of their places. *)
Fixpoint insert_by {A} (place : A -> Z) (x : A) (l : list A) : list A :=
  match l with
  | [] => [x]
  | y :: l' => if place x <? place y then x :: l else y :: insert_by place x l'
  end.

Definition in_order {A} (place : A -> Z) (l : list A) : list A :=
  fold_right (insert_by place) [] l.

(** A [str] is kept as the bytes of its UTF-8 encoding, and a lone
    surrogate (U+D800 to U+DFFF, which a JSON escape can put in a text)
    as the three bytes the same scheme gives it: ED, then A0 to BF, then
    a continuation byte. No other character has ED followed by a byte
    from A0 on. *)
Fixpoint has_surrogate (text : string) : bool :=
  match text with
  | EmptyString => false
  | String a rest =>
      match rest with
      | String b _ =>
          Nat.eqb (nat_of_ascii a) 237 && Nat.leb 160 (nat_of_ascii b)
      | EmptyString => false
      end
      || has_surrogate rest
  end.

(** [print(text)] on a standard output that is UTF-8 with strict
    errors, as Python opens it: a lone surrogate cannot be encoded. *)
Definition print (text : string) : result unit :=
  if has_surrogate text then Raise UnicodeEncodeError else Ok tt.

(** [os.path.join(a, b)] with POSIX separators: an absolute [b] wins. *)
Definition path_join (a b : string) : string :=
  match b with
  | String "/"%char _ => b
  | _ => (a ++ "/" ++ b)%string
  end.

(** ** smile_robot.py: configuration *)

Definition WEBSOCKET_PORT : Z := 8765.
Definition ROBOT_PORT : string := "COM6".

Definition ROBOT_SEQUENCES : list (string * string) :=
  [("wave", "wave.csv"); ("nod", "nod.csv"); ("dance", "dance.csv");
   ("happy", "happy.csv"); ("custom", "custom.csv")].

(** The file [play_sequence] looks for. *)
Definition seq_file_of (sequence_name : string) : string :=
  path_join "poses"
    (str_get ROBOT_SEQUENCES sequence_name (sequence_name ++ ".csv")%string).

Definition motion_name (m : motion) : string :=
  match m with Wave => "wave" | Nod => "nod" | Dance => "dance" end.

Definition kind_name (k : kind) : string :=
  match k with
  | K_play _ name => name
  | K_simple m => motion_name m
  end.

(** The frames of a sequence: [frames[frame][sid] = angle]. *)
Definition frames_t : Type := list (Z * list (Z * float)).

(** The body of the [for row in reader] loop of
    [_play_sequence_thread]. *)
Definition read_row (frames : frames_t) (row : csv_row) : result frames_t :=
  match row_frame row, row_servo_id row, row_angle row with
  | Some frame, Some sid, Some angle =>
      let angle := if mem sid Config.REVERSED then (240 - angle)%float else angle in
      let frames :=
        if mem frame (keys frames) then frames else dict_set frame [] frames in
      match dict_find frame frames with
      | Some frame_data => Ok (dict_set frame (dict_set sid angle frame_data) frames)
      | None => Raise KeyError
      end
  | _, _, _ => Raise ValueError
  end.

Fixpoint read_rows (rows : list csv_row) (frames : frames_t) : result frames_t :=
  match rows with
  | [] => Ok frames
  | row :: rows' =>
      match read_row frames row with
      | Ok frames' => read_rows rows' frames'
      | Raise x => Raise x
      end
  end.

(** ** class RobotController *)

Section Program.

Variable E : env.

Definition get : M state := fun s => (Ok s, s).

Definition modify (f : state -> state) : M unit := fun s => (Ok tt, f s).

(** A call on the bus (or a send): it happens, and it may raise. *)
Definition call (e : event) : M unit :=
  fun s => (if bus E (trace s) e then Raise DeviceError else Ok tt,
            emit [e] s).

Definition sleep (ms : Z) : M unit := modify (emit [Sleep ms]).

Definition assign_is_moving (b : bool) : M unit :=
  modify (fun s => emit [Assign_is_moving b]
                     (with_robot (set_is_moving b (robot s)) s)).

Definition assign_current_action (a : option string) : M unit :=
  modify (fun s => emit [Assign_current_action a]
                     (with_robot (set_current_action a (robot s)) s)).

Definition assign_connected (b : bool) : M unit :=
  modify (fun s => with_robot (set_connected b (robot s)) s).

(** [self.servos[sid] = s] *)
Definition add_servo (sid : Z) : M unit :=
  modify (fun s =>
    let l := servos (robot s) in
    with_robot (set_servos (if mem sid l then l else l ++ [sid]) (robot s)) s).

Definition start_thread (t : task) : M unit :=
  modify (fun s => with_threads (threads s ++ [t]) s).

(** [self.servos[sid].move(angle)] *)
Definition move (sid : Z) (angle : float) : M unit :=
  s <- get ;;
  if mem sid (servos (robot s)) then call (Move sid angle) else raise KeyError.

(** [if sid in self.servos: self.servos[sid].move(angle)] *)
Definition move_if (sid : Z) (angle : float) : M unit :=
  s <- get ;;
  if mem sid (servos (robot s)) then move sid angle else ret tt.

Definition set_home_position : M unit :=
  s <- get ;;
  if negb (connected (robot s)) then ret tt
  else for_each (servos (robot s))
         (fun sid => try_except (call (Move sid 120)) pass).

Definition connect : M bool :=
  try_except
    (call (Initialize ROBOT_PORT) ;;
     for_each Config.ALL_SERVOS
       (fun sid =>
          try_except
            (call (NewServo sid) ;; call (EnableTorque sid) ;; add_servo sid)
            pass) ;;
     s <- get ;;
     assign_connected (0 <? Z.of_nat (List.length (servos (robot s)))) ;;
     s <- get ;;
     (if connected (robot s) then set_home_position else ret tt) ;;
     s <- get ;;
     ret (connected (robot s)))
    (fun _ => assign_connected false ;; ret false).

Definition play_sequence (sequence_name : string) : M bool :=
  s <- get ;;
  if negb (connected (robot s)) || is_moving (robot s) then ret false
  else
    let seq_file := seq_file_of sequence_name in
    match files E seq_file with
    | None => ret false
    | Some _ =>
        start_thread (T_set_moving (K_play seq_file sequence_name)) ;;
        ret true
    end.

(** [open(seq_file)] and the loop over the reader. *)
Definition load_sequence (seq_file : string) : M frames_t :=
  match files E seq_file with
  | None => raise FileNotFoundError
  | Some rows =>
      match read_rows rows [] with
      | Ok frames => ret frames
      | Raise x => raise x
      end
  end.

(** The [for sid, angle in frame_data.items()] loop, also the inner
    loop of [simple_dance]. *)
Definition play_frame (frame_data : list (Z * float)) : M unit :=
  for_each frame_data
    (fun '(sid, angle) =>
       s <- get ;;
       if mem sid (servos (robot s))
       then try_except (move sid angle) pass
       else ret tt).

Definition play_frames (frames : frames_t) : M unit :=
  let frame_numbers := sorted (keys frames) in
  for_each (enumerate frame_numbers)
    (fun '(i, frame_num) =>
       match dict_find frame_num frames with
       | None => raise KeyError
       | Some frame_data =>
           play_frame frame_data ;;
           if Z.of_nat i <? Z.of_nat (List.length frame_numbers) - 1
           then sleep 500 else ret tt
       end).

(** [_play_sequence_thread], after its two assignments. *)
Definition play_body (seq_file : string) : M unit :=
  frames <- load_sequence seq_file ;;
  play_frames frames ;;
  sleep 500 ;;
  set_home_position.

(** The [finally] block of every motion. *)
Definition release : M unit :=
  assign_is_moving false ;; assign_current_action None.

Definition _play_sequence_thread (seq_file name : string) : M unit :=
  try_finally
    (try_except
       (assign_is_moving true ;;
        assign_current_action (Some name) ;;
        play_body seq_file)
       pass)
    release.

(** [if not self.connected or self.is_moving: return] *)
Definition not_ready : M bool :=
  s <- get ;; ret (negb (connected (robot s)) || is_moving (robot s)).

Definition wave_body : M unit :=
  move_if 1 180 ;;
  move_if 2 90 ;;
  sleep 300 ;;
  repeat_n 3 (move_if 2 60 ;; sleep 300 ;; move_if 2 120 ;; sleep 300) ;;
  sleep 500 ;;
  set_home_position.

Definition simple_wave : M unit :=
  stop <- not_ready ;;
  if stop then ret tt
  else try_finally
         (try_except
            (assign_is_moving true ;;
             assign_current_action (Some "wave") ;;
             wave_body)
            pass)
         release.

Definition nod_body : M unit :=
  s <- get ;;
  if mem 3 (servos (robot s))
  then repeat_n 3 (move 3 100 ;; sleep 300 ;; move 3 140 ;; sleep 300) ;;
       move 3 120
  else ret tt.

Definition simple_nod : M unit :=
  stop <- not_ready ;;
  if stop then ret tt
  else try_finally
         (try_except
            (assign_is_moving true ;;
             assign_current_action (Some "nod") ;;
             nod_body)
            pass)
         release.

Definition dance_positions : list (list (Z * float)) :=
  [ [(1, 100%float); (2, 100%float); (3, 100%float)];
    [(1, 140%float); (2, 140%float); (3, 140%float)];
    [(1, 100%float); (2, 140%float); (3, 100%float)];
    [(1, 140%float); (2, 100%float); (3, 140%float)] ].

Definition dance_body : M unit :=
  repeat_n 2 (for_each dance_positions (fun pos => play_frame pos ;; sleep 400)) ;;
  set_home_position.

Definition simple_dance : M unit :=
  stop <- not_ready ;;
  if stop then ret tt
  else try_finally
         (try_except
            (assign_is_moving true ;;
             assign_current_action (Some "dance") ;;
             dance_body)
            pass)
         release.

Definition emergency_stop : M unit :=
  assign_is_moving false ;;
  s <- get ;;
  for_each (servos (robot s))
    (fun sid => try_except (call (DisableTorque sid)) pass) ;;
  sleep 1000 ;;
  s <- get ;;
  for_each (servos (robot s))
    (fun sid => try_except (call (EnableTorque sid)) pass).

Definition disconnect : M unit :=
  s <- get ;;
  for_each (servos (robot s))
    (fun sid => try_except (call (DisableTorque sid)) pass) ;;
  try_except (call CloseBus) pass ;;
  assign_connected false.

(** ** class SmileRobotServer *)

Definition add_total_smiles : M unit :=
  modify (fun s =>
    let st := stats s in
    with_stats {| total_smiles := total_smiles st + 1;
                  total_movements := total_movements st;
                  start_time := start_time st;
                  last_smile := last_smile st |} s).

Definition assign_last_smile (now : Z) : M unit :=
  modify (fun s =>
    let st := stats s in
    with_stats {| total_smiles := total_smiles st;
                  total_movements := total_movements st;
                  start_time := start_time st;
                  last_smile := Some now |} s).

Definition add_total_movements : M unit :=
  modify (fun s =>
    let st := stats s in
    with_stats {| total_smiles := total_smiles st;
                  total_movements := total_movements st + 1;
                  start_time := start_time st;
                  last_smile := last_smile st |} s).

(** The thread body [run_action] of [trigger_robot_action], run
    without interruption. *)
Definition run_action (action : string) : M unit :=
  if String.eqb action "wave" then
    ok <- play_sequence "wave" ;; if negb ok then simple_wave else ret tt
  else if String.eqb action "nod" then
    ok <- play_sequence "nod" ;; if negb ok then simple_nod else ret tt
  else if String.eqb action "dance" then
    ok <- play_sequence "dance" ;; if negb ok then simple_dance else ret tt
  else if String.eqb action "custom" then
    _ <- play_sequence "custom" ;; ret tt
  else
    _ <- play_sequence action ;; ret tt.

Definition trigger_robot_action (action : string) : M bool :=
  s <- get ;;
  if negb (connected (robot s)) then ret false
  else start_thread (T_run_action action) ;; ret true.

(** [for client in self.clients], a set. *)
Definition iteration (s : state) : list nat :=
  in_order (slot E (trace s)) (clients s).

Definition broadcast (payload : pyval) : M unit :=
  s <- get ;;
  for_each (iteration s) (fun client => try_except (call (Send client payload)) pass).

(** [f"{smile_score:.1f}"], evaluated for the log line of
    [handle_smile]: only a number has the format code [f], and an
    integer must fit a float. *)
Definition float_format (v : pyval) : result unit :=
  match v with
  | PBool _ | PFloat _ | PSeconds _ => Ok tt
  | PInt n => if Z.abs n <? 2 ^ 1024 - 2 ^ 970 then Ok tt else Raise OverflowError
  | PStr _ | PErrorText _ => Raise ValueError
  | PNone | PList _ | PDict _ => Raise TypeError
  end.

Definition lift {A} (r : result A) : M A := fun s => (r, s).

(** The log line of [handle_smile] formats the score, then prints the
    action with it. *)
Definition handle_smile (connection : nat) (data : message) (now : Z) : M unit :=
  let smile_score := score_of data in
  let action := action_of data in
  add_total_smiles ;;
  assign_last_smile now ;;
  lift (float_format smile_score) ;;
  lift (print action) ;;
  s <- get ;;
  response <-
    (if negb (is_moving (robot s)) then
       success <- trigger_robot_action action ;;
       if success then
         add_total_movements ;;
         s <- get ;;
         ret (PDict [("message", PStr ("Robot performing: " ++ action)%string);
                     ("status", PStr "Moving");
                     ("smile_score", smile_score);
                     ("total_movements", PInt (total_movements (stats s)))])
       else
         ret (PDict [("message", PStr "Robot is busy or action failed");
                     ("status", PStr "Busy")])
     else
       ret (PDict [("message", PStr "Robot is already moving");
                   ("status", PStr "Busy")])) ;;
  broadcast response.

Definition handle_test_action (connection : nat) (data : message) : M unit :=
  let action := action_of data in
  lift (print action) ;;
  response <-
    (if String.eqb action "stop" then
       emergency_stop ;;
       ret (PDict [("message", PStr "Emergency stop activated");
                   ("status", PStr "Stopped")])
     else
       success <- trigger_robot_action action ;;
       if success then
         ret (PDict [("message", PStr ("Testing: " ++ action)%string);
                     ("status", PStr "Moving")])
       else
         ret (PDict [("message", PStr ("Failed to perform: " ++ action)%string);
                     ("status", PStr "Error")])) ;;
  call (Send connection response).

Definition send_status (connection : nat) (now : Z) : M unit :=
  s <- get ;;
  let status :=
    PDict [("robot_connected", PBool (connected (robot s)));
           ("is_moving", PBool (is_moving (robot s)));
           ("current_action",
             match current_action (robot s) with Some a => PStr a | None => PNone end);
           ("total_smiles", PInt (total_smiles (stats s)));
           ("total_movements", PInt (total_movements (stats s)));
           ("uptime", PSeconds (now - start_time (stats s)));
           ("servos_connected", PInt (Z.of_nat (List.length (servos (robot s)))))] in
  call (Send connection (PDict [("message", PStr "Status update"); ("status", status)])).

Definition process_message (connection : nat) (raw : inbound) (now : Z) : M unit :=
  try_except
    (match raw with
     | Undecodable => raise JSONDecodeError
     | Not_an_object => raise AttributeError
     | Decoded data =>
         let command := msg_command data in
         lift (print (match command with Some c => c | None => "None" end)) ;;
         if command_is command "smile_detected" then handle_smile connection data now
         else if command_is command "test_action" then handle_test_action connection data
         else if command_is command "get_status" then send_status connection now
         else
           call (Send connection
             (PDict [("error",
                      PStr ("Unknown command: " ++
                            match command with Some c => c | None => "None" end)%string)]))
     end)
    (fun x =>
       match x with
       | JSONDecodeError =>
           call (Send connection (PDict [("error", PStr "Invalid JSON")]))
       | _ => call (Send connection (PDict [("error", PErrorText x)]))
       end).

(** [handle_client], cut at its awaits: the connection is accepted,
    each message is processed, and the connection is removed when the
    loop ends or a handler raises. *)
Definition accept_client (connection : nat) (now : Z) : M unit :=
  modify (fun s =>
    {| robot := robot s;
       clients := if existsb (Nat.eqb connection) (clients s) then clients s
                  else clients s ++ [connection];
       stats := stats s; trace := trace s; threads := threads s |}) ;;
  send_status connection now.

Definition remove_client (connection : nat) : M unit :=
  modify (fun s =>
    {| robot := robot s;
       clients := filter (fun c => negb (Nat.eqb connection c)) (clients s);
       stats := stats s; trace := trace s; threads := threads s |}).

Definition receive (connection : nat) (raw : inbound) (now : Z) : M unit :=
  try_except (process_message connection raw now)
             (fun _ => remove_client connection).

(** ** The threads, one statement at a time *)

Definition fallback (action : string) : option motion :=
  if String.eqb action "wave" then Some Wave
  else if String.eqb action "nod" then Some Nod
  else if String.eqb action "dance" then Some Dance
  else None.

Definition body (k : kind) : M unit :=
  match k with
  | K_play seq_file _ => play_body seq_file
  | K_simple Wave => wave_body
  | K_simple Nod => nod_body
  | K_simple Dance => dance_body
  end.

(** The next statement of a thread, and where the thread is after it. *)
Definition step_task (t : task) : M task :=
  match t with
  | T_run_action action =>
      ok <- play_sequence action ;;
      match fallback action with
      | Some m => if ok then ret T_done else ret (T_simple m)
      | None => ret T_done
      end
  | T_simple m =>
      stop <- not_ready ;;
      if stop then ret T_done else ret (T_set_moving (K_simple m))
  | T_set_moving k => assign_is_moving true ;; ret (T_set_action k)
  | T_set_action k => assign_current_action (Some (kind_name k)) ;; ret (T_body k)
  | T_body k => try_except (body k) pass ;; ret T_clear_moving
  | T_clear_moving => assign_is_moving false ;; ret T_clear_action
  | T_clear_action => assign_current_action None ;; ret T_done
  | T_done => ret T_done
  end.

Fixpoint list_set {A} (i : nat) (x : A) (l : list A) : list A :=
  match l, i with
  | [], _ => []
  | _ :: l', O => x :: l'
  | y :: l', S i' => y :: list_set i' x l'
  end.

(** Thread [i] executes its next statement. *)
Definition run_thread (i : nat) : M unit :=
  s <- get ;;
  match nth_error (threads s) i with
  | None => ret tt
  | Some t =>
      t' <- try_except (step_task t) (fun _ => ret T_done) ;;
      modify (fun s' => with_threads (list_set i t' (threads s')) s')
  end.

(** What can happen next: a thread runs one statement, the server
    handles a connection or a message, or an operation of the engine
    is called. *)
Definition do_label (l : label) : M unit :=
  match l with
  | Run i => run_thread i
  | Accept c now => try_except (accept_client c now) pass
  | Receive c raw now => receive c raw now
  | Close c => remove_client c
  | Connect => _ <- connect ;; ret tt
  | Play_sequence name => _ <- play_sequence name ;; ret tt
  | Simple m => start_thread (T_simple m)
  | Emergency_stop => emergency_stop
  | Disconnect => disconnect
  end.

Fixpoint exec (ls : list label) (s : state) : state :=
  match ls with
  | [] => s
  | l :: ls' => exec ls' (snd (do_label l s))
  end.

End Program.

(** A thread run alone, for at most [fuel] statements. *)
Fixpoint run_alone (E : env) (fuel : nat) (t : task) : M unit :=
  match fuel with
  | O => ret tt
  | S fuel' =>
      match t with
      | T_done => ret tt
      | _ => t' <- step_task E t ;; run_alone E fuel' t'
      end
  end.

(** The state of a server that has just been constructed. *)
Definition initial (now : Z) : state :=
  {| robot := {| servos := []; is_moving := false;
                 current_action := None; connected := false |};
     clients := [];
     stats := {| total_smiles := 0; total_movements := 0;
                 start_time := now; last_smile := None |};
     trace := [];
     threads := [] |}.


(** [simple_wave], [simple_nod] or [simple_dance]. *)
Definition simple (E : env) (m : motion) : M unit :=
  match m with
  | Wave => simple_wave E
  | Nod => simple_nod E
  | Dance => simple_dance E
  end.

(** The state after [self.is_moving = True; self.current_action = name]. *)
Definition claimed (name : string) (s : state) : state :=
  emit [Assign_is_moving true; Assign_current_action (Some name)]
    (with_robot (set_current_action (Some name) (set_is_moving true (robot s))) s).

(** The state after [self.is_moving = False; self.current_action = None]. *)
Definition released (s : state) : state :=
  emit [Assign_is_moving false; Assign_current_action None]
    (with_robot (set_current_action None (set_is_moving false (robot s))) s).

(** ** Playback, in the words of the specification

    A motion program is a set of records (frame, actuator, angle). The
    angle of a record of a reversed actuator becomes 240 - angle; the
    frame of index [f] maps each actuator of its records to the angle
    of the last of them; the frames are played by ascending index, a
    move per actuator, 500 ms between two frames; then 500 ms and the
    home position. *)

Definition record : Type := Z * Z * float.

Definition parse_row (row : csv_row) : option record :=
  match row_frame row, row_servo_id row, row_angle row with
  | Some frame, Some sid, Some angle => Some (frame, sid, angle)
  | _, _, _ => None
  end.

Fixpoint parse_rows (rows : list csv_row) : option (list record) :=
  match rows with
  | [] => Some []
  | row :: rows' =>
      match parse_row row, parse_rows rows' with
      | Some r, Some rs => Some (r :: rs)
      | _, _ => None
      end
  end.

Definition reversal (r : record) : record :=
  let '(frame, sid, angle) := r in
  (frame, sid, if mem sid Config.REVERSED then (240 - angle)%float else angle).

Definition frame_index (r : record) : Z := fst (fst r).

(** The values of [l], each once, in the order of first occurrence. *)
Definition distinct (l : list Z) : list Z :=
  fold_left (fun acc x => if mem x acc then acc else acc ++ [x]) l [].

(** The frame of index [f]: actuator to angle, a later record of the
    same actuator replacing an earlier one. *)
Definition frame_of (recs : list record) (f : Z) : list (Z * float) :=
  fold_left
    (fun d r => let '(frame, sid, angle) := r in
                if frame =? f then dict_set sid angle d else d)
    recs [].

Definition moves (frame_data : list (Z * float)) : list event :=
  map (fun p => Move (fst p) (snd p)) frame_data.

(** The moves of a frame: to every actuator it names, or only to those
    that are connected. *)
Definition frame_moves (only_connected : bool) (connected_ids : list Z)
    (frame_data : list (Z * float)) : list event :=
  moves (if only_connected
         then filter (fun p => mem (fst p) connected_ids) frame_data
         else frame_data).

(** 500 ms between consecutive frames, none after the last. *)
Fixpoint with_delays (frames : list (list event)) : list event :=
  match frames with
  | [] => []
  | [f] => f
  | f :: rest => f ++ Sleep 500 :: with_delays rest
  end.

Definition home_sweep (connected_ids : list Z) : list event :=
  map (fun sid => Move sid 120) connected_ids.

(** What a call of [set_home_position] sends: the home position of
    every connected actuator, and nothing once the engine is
    disconnected. *)
Definition home_position (r : RobotController) : list event :=
  if connected r then home_sweep (servos r) else [].

Definition playback (only_connected : bool) (r : RobotController)
    (recs : list record) : list event :=
  let recs' := map reversal recs in
  let indices := sorted (distinct (map frame_index recs')) in
  with_delays (map (fun f => frame_moves only_connected (servos r) (frame_of recs' f))
                   indices)
  ++ Sleep 500 :: home_position r.

(** ** The reply to a smile, in the words of the specification

    Status "Moving" with the score and the new count of movements when
    the trigger succeeds, status "Busy" when it is rejected. *)
Definition smile_reply (s : state) (data : message) : pyval :=
  if is_moving (robot s) then
    PDict [("message", PStr "Robot is already moving"); ("status", PStr "Busy")]
  else if connected (robot s) then
    PDict [("message", PStr ("Robot performing: " ++ action_of data)%string);
           ("status", PStr "Moving");
           ("smile_score", score_of data);
           ("total_movements", PInt (total_movements (stats s) + 1))]
  else
    PDict [("message", PStr "Robot is busy or action failed");
           ("status", PStr "Busy")].

(** ** Vocabulary of the proofs *)

(** One record entered in the frames: [frames[frame][sid] = angle],
    the frame created when it is new. *)
Definition insert_record (frames : frames_t) (r : record) : frames_t :=
  let '(frame, sid, angle) := r in
  dict_set frame
    (dict_set sid angle
       (match dict_find frame frames with Some d => d | None => [] end))
    frames.

(** A computation that only makes events happen, all of them in [P]. *)
Definition emits_only (P : event -> Prop) {A} (m : M A) : Prop :=
  forall s, exists evs, snd (m s) = emit evs s /\ Forall P evs.

Definition only_emits {A} (m : M A) : Prop := emits_only (fun _ => True) m.



(** A step that leaves the flags to the motion threads: it may clear
    [is_moving], it does not set it, it does not touch
    [current_action], and it only adds threads. *)
Definition benign (s s' : state) : Prop :=
  (is_moving (robot s') = true -> is_moving (robot s) = true)
  /\ current_action (robot s') = current_action (robot s)
  /\ exists started, threads s' = threads s ++ started.

Definition harmless {A} (m : M A) : Prop := forall s, benign s (snd (m s)).

(** ** Observations on states and traces *)

(** The invariant of the specification: busy iff an action is current. *)
Definition flags_agree (s : state) : Prop :=
  is_moving (robot s) = true <-> current_action (robot s) <> None.

(** A thread that has executed [self.is_moving = True] and not yet its
    [self.is_moving = False]. *)
Definition holds_busy (t : task) : bool :=
  match t with
  | T_set_action _ | T_body _ | T_clear_moving => true
  | _ => false
  end.

(** A thread that has assigned a name to [current_action] and not yet
    [None]. *)
Definition holds_action (t : task) : bool :=
  match t with
  | T_body _ | T_clear_moving | T_clear_action => true
  | _ => false
  end.

(** Each flag that is set is backed by a thread that will clear it. *)
Definition flags_backed (s : state) : Prop :=
  (is_moving (robot s) = true -> existsb holds_busy (threads s) = true)
  /\ (current_action (robot s) <> None -> existsb holds_action (threads s) = true).

(** A motion in flight: between its first assignment and its last. *)
Definition in_flight (t : task) : bool := holds_busy t || holds_action t.

(** A motion that has claimed the engine and not started to release it. *)
Definition playing (t : task) : bool :=
  match t with
  | T_set_action _ | T_body _ => true
  | _ => false
  end.

Definition count_playing (s : state) : nat :=
  List.length (filter playing (threads s)).



Definition is_send (e : event) : bool :=
  match e with Send _ _ => true | _ => false end.

Definition is_move_to (sid : Z) (e : event) : bool :=
  match e with Move sid' _ => sid' =? sid | _ => false end.

Definition is_move (sid : Z) (angle : float) (e : event) : bool :=
  match e with
  | Move sid' angle' => (sid' =? sid) && (angle' =? angle)%float
  | _ => false
  end.

(** ** Environments and requests of the examples *)

Definition row (frame sid : Z) (angle : float) : csv_row :=
  {| row_frame := Some frame; row_servo_id := Some sid; row_angle := Some angle |}.

(** Every call succeeds; no sequence file is stored. In the examples
    the set of clients is iterated by ascending connection. *)
Definition bare : env :=
  {| bus := fun _ _ => false; files := fun _ => None;
     slot := fun _ c => Z.of_nat c |}.

(** Every call succeeds; [poses/wave.csv] and [poses/dance.csv] are stored. *)
Definition stocked : env :=
  {| bus := fun _ _ => false;
     files := fun p =>
       if String.eqb p "poses/wave.csv"
       then Some [row 0 1 100%float; row 1 1 140%float]
       else if String.eqb p "poses/dance.csv"
       then Some [row 5 1 140%float; row 0 1 100%float; row 0 2 50%float;
                  row 0 11 7%float]
       else None;
     slot := fun _ c => Z.of_nat c |}.

(** Only actuator 2 answers at connection time. *)
Definition lone : env :=
  {| bus := fun _ e => match e with NewServo sid => negb (sid =? 2) | _ => false end;
     files := files stocked;
     slot := slot stocked |}.

(** The move of actuator 2 to 90 degrees fails; nothing is stored. *)
Definition faulty : env :=
  {| bus := fun _ e => match e with
                       | Move 2 angle => (angle =? 90)%float
                       | _ => false
                       end;
     files := fun _ => None;
     slot := fun _ c => Z.of_nat c |}.

(** The text of the JSON string "\ud83d": the code point U+D83D alone. *)
Definition lone_surrogate : string :=
  String (ascii_of_nat 237) (String (ascii_of_nat 160) (String (ascii_of_nat 189) "")).

Definition smile (score : pyval) (action : string) : inbound :=
  Decoded {| msg_command := Some "smile_detected";
             msg_smile_score := Some score;
             msg_action := Some action |}.

Definition test (action : string) : inbound :=
  Decoded {| msg_command := Some "test_action";
             msg_smile_score := None;
             msg_action := Some action |}.

(** A server that has connected to the robot and accepted clients 1 and 2. *)
Definition ready (E : env) : state :=
  exec E [Connect; Accept 1%nat 0; Accept 2%nat 0] (initial 0).

Definition dance_request : message :=
  {| msg_command := Some "smile_detected";
     msg_smile_score := Some (PFloat 87.5);
     msg_action := Some "dance" |}.

Definition happy_request : message :=
  {| msg_command := Some "smile_detected";
     msg_smile_score := Some (PInt 90);
     msg_action := Some "happy" |}.

(** The records of [poses/dance.csv] in [stocked] and [lone]. *)
Definition dance_records : list record :=
  [(5, 1, 140%float); (0, 1, 100%float); (0, 2, 50%float); (0, 11, 7%float)].



(** Schedules on [stocked]: a dance is requested and its thread has
    set both flags; then a wave is requested, sees the engine busy,
    and goes on to [simple_wave] once the dance is over. *)
Definition dance_playing : list label :=
  [Connect; Receive 1%nat (test "dance") 1; Run 0; Run 1; Run 1].

Definition wave_after_dance : list label :=
  dance_playing
  ++ [Receive 1%nat (test "wave") 2; Run 2;     (* play_sequence('wave') refused: busy *)
      Run 1; Run 1; Run 1;                      (* the dance plays and releases *)
      Run 2; Run 2; Run 2; Run 2; Run 2; Run 2] (* simple_wave, to its end *).

(** Two waves requested before the thread of the first has set
    [is_moving]. *)
Definition two_waves : list label :=
  [Connect;
   Receive 1%nat (test "wave") 1; Receive 2%nat (test "wave") 2;
   Run 0; Run 1;          (* both run_action threads pass the guard of play_sequence *)
   Run 2; Run 2;          (* the first playback thread sets both flags *)
   Run 3; Run 3].         (* and so does the second *)

(** The same on [bare], where both threads fall back to a built-in motion. *)
Definition nod_and_wave : list label :=
  [Connect;
   Receive 1%nat (test "nod") 1; Receive 2%nat (test "wave") 2;
   Run 0; Run 1;          (* no file: both go on to simple_nod, simple_wave *)
   Run 0; Run 1;          (* both pass the guard *)
   Run 0; Run 0; Run 1; Run 1].

(** A wave is playing and the stop request arrives. *)
Definition stop_while_playing : list label :=
  [Connect; Receive 1%nat (test "wave") 1; Run 0; Run 1; Run 1;
   Receive 1%nat (test "stop") 2].

(** The playback thread has set [is_moving] and not yet [current_action]. *)
Definition wave_claiming : list label :=
  [Connect; Receive 1%nat (test "wave") 1; Run 0; Run 1].

(** On [bare]: a wave has cleared [is_moving] and not yet
    [current_action] when a nod passes the guard and claims the engine;
    then the wave clears [current_action]. *)
Definition nod_over_wave : list label :=
  [Connect; Receive 1%nat (test "wave") 1; Receive 1%nat (test "nod") 2;
   Run 0; Run 0; Run 0; Run 0; Run 0; Run 0;   (* the wave, up to its last assignment *)
   Run 1; Run 1; Run 1; Run 1;                 (* the nod claims the engine *)
   Run 0].                                     (* the wave's last assignment *)

(** On [stocked]: the wave that was playing when the stop was
    requested runs to its end; then a dance is requested and its thread
    claims the engine. *)
Definition stopped_wave : list label :=
  stop_while_playing ++ [Run 1%nat; Run 1%nat; Run 1%nat].

Definition dance_claimed : list label :=
  [Receive 1%nat (test "dance") 3; Run 2%nat; Run 3%nat; Run 3%nat].

(** ** The flags and the threads that hold them *)

(** A request for an emergency stop: the method, or the message that
    asks for it. *)
Definition is_stop (l : label) : bool :=
  match l with
  | Emergency_stop => true
  | Receive _ (Decoded data) _ =>
      command_is (msg_command data) "test_action" && String.eqb (action_of data) "stop"
  | _ => false
  end.

Definition count_in_flight (s : state) : nat :=
  List.length (filter in_flight (threads s)).

(** A schedule in which the motions do not overlap (at most one thread
    is in flight after each step) and no stop is requested while a
    motion is in flight. *)
Fixpoint orderly (E : env) (ls : list label) (s : state) : bool :=
  match ls with
  | [] => true
  | l :: ls' =>
      (negb (is_stop l) || Nat.eqb (count_in_flight s) 0)
      && Nat.leb (count_in_flight (snd (do_label E l s))) 1
      && orderly E ls' (snd (do_label E l s))
  end.

(** A thread that is not between the two assignments of its claim
    ([is_moving], then [current_action]) or of its release. *)
Definition settled (t : task) : bool := Bool.eqb (holds_busy t) (holds_action t).

(** An action is current. *)
Definition has_action (s : state) : bool :=
  match current_action (robot s) with Some _ => true | None => false end.

(** Each flag is set exactly when a thread holds it. *)
Definition flags_tracked (s : state) : Prop :=
  is_moving (robot s) = existsb holds_busy (threads s)
  /\ has_action s = existsb holds_action (threads s).

(** What a handler or a method of the engine may do to the flags and
    the threads: start threads that have claimed nothing, and, unless
    [strict], clear [is_moving]. *)
Definition calm (strict : bool) (s s' : state) : Prop :=
  (is_moving (robot s') = is_moving (robot s)
   \/ (strict = false /\ is_moving (robot s') = false))
  /\ current_action (robot s') = current_action (robot s)
  /\ exists started,
       threads s' = threads s ++ started /\ existsb in_flight started = false.

(** ** Further observations *)

(** What a motion does between its claim and its release: it moves
    actuators and sleeps. *)
Definition motion_event (e : event) : Prop :=
  match e with
  | Move _ _ | Sleep _ => True
  | _ => False
  end.

(** The angle of the last record of actuator [sid] in frame [f]. *)
Definition last_angle (recs : list record) (f sid : Z) : option float :=
  fold_left
    (fun acc r => let '(frame, sid', angle) := r in
                  if (frame =? f) && (sid' =? sid) then Some angle else acc)
    recs None.

(** [frames[f][sid]], when both keys are present. *)
Definition frame_angle (frames : frames_t) (f sid : Z) : option float :=
  match dict_find f frames with
  | Some frame_data => dict_find sid frame_data
  | None => None
  end.

(** The time slept in a trace, in milliseconds. *)
Fixpoint slept (tr : list event) : Z :=
  match tr with
  | [] => 0
  | Sleep ms :: tr' => ms + slept tr'
  | _ :: tr' => slept tr'
  end.

(** A sequence file whose second record has no actuator id. *)
Definition broken : env :=
  {| bus := fun _ _ => false;
     files := fun _ =>
       Some [row 0 1 100%float;
             {| row_frame := Some 1; row_servo_id := None;
                row_angle := Some 90%float |}];
     slot := fun _ c => Z.of_nat c |}.

(** ** Relations between the state before and the state after *)

(** Every run of [m] takes a state to one that [R] relates to it. *)
Definition respects (R : state -> state -> Prop) {A} (m : M A) : Prop :=
  forall s, R s (snd (m s)).

(** The observation [f] of the state is kept. *)
Definition keeps {X} (f : state -> X) (s s' : state) : Prop := f s' = f s.

(** The trace grows, by events in [P]. *)
Definition adds (P : event -> Prop) (s s' : state) : Prop :=
  exists evs, trace s' = trace s ++ evs /\ Forall P evs.

(** The actuators registered and the connection flag. *)
Definition wiring (s : state) : list Z * bool :=
  (servos (robot s), connected (robot s)).

(** Everything of the state but the trace and the registered actuators. *)
Definition rest (s : state)
  : bool * option string * bool * list nat * Stats * list task :=
  (is_moving (robot s), current_action (robot s), connected (robot s),
   clients s, stats s, threads s).

(** A send to client [c], or anything that is not a send. *)
Definition to_sender (c : nat) (e : event) : Prop :=
  match e with
  | Send c' _ => c' = c
  | _ => True
  end.

(** A command to an actuator. *)
Definition servo_command (e : event) : bool :=
  match e with
  | NewServo _ | EnableTorque _ | DisableTorque _ | Move _ _ => true
  | _ => false
  end.

(** What [connect] does on the bus before the home position. *)
Definition connect_event (e : event) : Prop :=
  match e with
  | NewServo _ | EnableTorque _ => True
  | _ => False
  end.

(** A message that [process_message] hands to [handle_smile]. *)
Definition is_smile (l : label) : bool :=
  match l with
  | Receive _ (Decoded data) _ => command_is (msg_command data) "smile_detected"
  | _ => false
  end.

Definition count_smiles (ls : list label) : Z :=
  Z.of_nat (List.length (filter is_smile ls)).

(** The events of [simple_dance] between its claim and its release. *)
Definition dance_round (ids : list Z) : list event :=
  List.concat (map (fun pos => frame_moves true ids pos ++ [Sleep 400]) dance_positions).

Definition dance_events (r : RobotController) : list event :=
  dance_round (servos r) ++ dance_round (servos r) ++ home_position r.

(** The bus cannot be initialised. *)
Definition unplugged (E : env) : Prop :=
  forall history, bus E history (Initialize ROBOT_PORT) = true.

(** A thread that has not passed a guard. *)
Definition idle_task (t : task) : bool :=
  match t with
  | T_run_action _ | T_simple _ | T_done => true
  | _ => false
  end.

(** No bus at all: the initialisation fails. *)
Definition dead : env :=
  {| bus := fun _ e => match e with Initialize _ => true | _ => false end;
     files := files stocked;
     slot := slot stocked |}.

(** What the registration loop of [connect] over the ids [l] may do:
    talk to the bus and add ids of [l] to the registered actuators,
    none twice. *)
Definition registers (l : list Z) (s s' : state) : Prop :=
  rest s' = rest s
  /\ adds connect_event s s'
  /\ incl (servos (robot s)) (servos (robot s'))
  /\ incl (servos (robot s')) (servos (robot s) ++ l)
  /\ (NoDup (servos (robot s)) -> NoDup (servos (robot s'))).

(** The registered actuators are ids of the configuration, none twice,
    and the engine is connected only with an actuator registered. *)
Definition wired (s : state) : Prop :=
  NoDup (servos (robot s))
  /\ incl (servos (robot s)) Config.ALL_SERVOS
  /\ (connected (robot s) = true -> servos (robot s) <> []).

(** The state with the clients [cs]. *)
Definition with_clients (cs : list nat) (s : state) : state :=
  {| robot := robot s; clients := cs; stats := stats s;
     trace := trace s; threads := threads s |}.

(** What a smile adds to the count of smiles. *)
Definition smiles_of (l : label) : Z := if is_smile l then 1 else 0.

(** A send to client [c]. *)
Definition is_send_to (c : nat) (e : event) : bool :=
  match e with Send c' _ => Nat.eqb c' c | _ => false end.

(** The engine of a server that has just been constructed. *)
Definition fresh_robot : RobotController :=
  {| servos := []; is_moving := false; current_action := None; connected := false |}.

(** The clients can be sent to. *)
Definition reachable (E : env) (c : nat) : Prop :=
  forall history payload, bus E history (Send c payload) = false.

(** An event that is no command to an actuator. *)
Definition quiet (e : event) : bool := negb (servo_command e).

(** The server without its robot: the engine is as constructed, no
    thread has passed a guard, no movement is counted and no actuator
    has been commanded. *)
Definition degraded (s : state) : Prop :=
  robot s = fresh_robot
  /\ forallb idle_task (threads s) = true
  /\ total_movements (stats s) = 0
  /\ forallb quiet (trace s) = true.

(** Between [s] and [s'] client [c] has been sent a message, and no
    other client has. *)
Definition answered (c : nat) (s s' : state) : Prop :=
  exists evs,
    trace s' = trace s ++ evs
    /\ Forall (to_sender c) evs
    /\ existsb (is_send_to c) evs = true.

(** * Properties *)

(** ** Events only add to the trace *)

Lemma emit_nil (s : state) : emit [] s = s.
Proof. destruct s; unfold emit; simpl; now rewrite app_nil_r. Qed.

Lemma emit_emit (a b : list event) (s : state) :
  emit b (emit a s) = emit (a ++ b) s.
Proof. unfold emit; simpl; now rewrite app_assoc. Qed.

(** A loop of calls, each in its own [try: ... except: pass], makes
    every call, whatever the bus answers. *)
Lemma sweep_swallows (E : env) (A : Type) (f : A -> event) (l : list A) (s : state) :
  for_each l (fun sid => try_except (call E (f sid)) pass) s
  = (Ok tt, emit (map f l) s).
Proof.
  revert s; induction l as [|x l IH]; intros s; simpl.
  - now rewrite emit_nil.
  - unfold bind at 1, try_except at 1, call at 1, pass.
    destruct (bus E (trace s) (f x)); unfold ret;
      rewrite IH, emit_emit; reflexivity.
Qed.

Lemma set_home_position_sweeps (E : env) (s : state) :
  connected (robot s) = true ->
  set_home_position E s = (Ok tt, emit (home_sweep (servos (robot s))) s).
Proof.
  intros H. unfold set_home_position, bind at 1, get. rewrite H. simpl.
  apply sweep_swallows.
Qed.

Lemma set_home_position_events (E : env) (s : state) :
  set_home_position E s = (Ok tt, emit (home_position (robot s)) s).
Proof.
  unfold home_position. destruct (connected (robot s)) eqn:H.
  - now apply set_home_position_sweeps.
  - unfold set_home_position, bind, get, ret. rewrite H. simpl.
    now rewrite emit_nil.
Qed.

(** ** Emergency stop *)

(** C6. [emergency_stop] first clears [is_moving], then asks every
    connected actuator to disable its torque, sleeps one second, and
    asks every connected actuator to enable it again; every request is
    made whatever the bus answers, and the call returns normally. *)
Theorem emergency_stop_effect (E : env) (s : state) :
  emergency_stop E s =
  (Ok tt,
   emit (Assign_is_moving false
           :: map DisableTorque (servos (robot s))
           ++ Sleep 1000
           :: map EnableTorque (servos (robot s)))
        (with_robot (set_is_moving false (robot s)) s)).
Proof.
  unfold emergency_stop.
  unfold bind at 1, assign_is_moving at 1, modify.
  unfold bind at 1, get at 1.
  unfold bind at 1. rewrite sweep_swallows.
  unfold bind at 1, sleep, modify.
  unfold bind at 1, get at 1.
  rewrite sweep_swallows.
  rewrite !emit_emit. simpl. reflexivity.
Qed.

Lemma emergency_stop_halts (E : env) (s : state) :
  fst (emergency_stop E s) = Ok tt.
Proof.
  unfold emergency_stop.
  unfold bind at 1, assign_is_moving at 1, modify.
  unfold bind at 1, get at 1.
  unfold bind at 1. rewrite sweep_swallows.
  unfold bind at 1, sleep, modify.
  unfold bind at 1, get at 1.
  now rewrite sweep_swallows.
Qed.

(** ** play_sequence: the two refusals *)

(** C4. When the engine is not connected or is busy, [play_sequence]
    returns [False] and leaves the whole state as it was: no thread is
    started, nothing is sent to an actuator, and [is_moving] and
    [current_action] keep their values. *)
Theorem play_sequence_rejects (E : env) (s : state) (name : string) :
  connected (robot s) = false \/ is_moving (robot s) = true ->
  play_sequence E name s = (Ok false, s).
Proof.
  intros H. unfold play_sequence, bind, get.
  destruct H as [H | H]; rewrite H; simpl.
  - reflexivity.
  - rewrite orb_true_r. reflexivity.
Qed.

Lemma play_sequence_rejects_witness :
  let s := with_robot (set_is_moving true (robot (exec stocked [Connect] (initial 0))))
             (exec stocked [Connect] (initial 0)) in
  (connected (robot s) = false \/ is_moving (robot s) = true)
  /\ play_sequence stocked "wave" s = (Ok false, s).
Proof.
  intros s.
  assert (H : connected (robot s) = false \/ is_moving (robot s) = true)
    by (right; reflexivity).
  split; [exact H | exact (play_sequence_rejects stocked s "wave" H)].
Defined.

(** C10. When no file is stored for the name, [play_sequence] returns
    [False] in the calling thread and leaves the whole state as it
    was: [is_moving] and [current_action] are not written, no thread is
    started and nothing is sent to an actuator. *)
Theorem play_sequence_not_found (E : env) (s : state) (name : string) :
  files E (seq_file_of name) = None ->
  play_sequence E name s = (Ok false, s).
Proof.
  intros H. unfold play_sequence, bind, get.
  destruct (negb (connected (robot s)) || is_moving (robot s)).
  - reflexivity.
  - rewrite H. reflexivity.
Qed.

Lemma play_sequence_not_found_witness :
  files bare (seq_file_of "wave") = None
  /\ play_sequence bare "wave" (exec bare [Connect] (initial 0))
     = (Ok false, exec bare [Connect] (initial 0)).
Proof.
  assert (H : files bare (seq_file_of "wave") = None) by reflexivity.
  split; [exact H | exact (play_sequence_not_found bare (exec bare [Connect] (initial 0)) "wave" H)].
Defined.

(** ** The smile handler *)

Lemma broadcast_reaches_all (E : env) (payload : pyval) (s : state) :
  broadcast E payload s
  = (Ok tt, emit (map (fun client => Send client payload) (iteration E s)) s).
Proof.
  unfold broadcast, bind at 1, get. apply sweep_swallows.
Qed.

Lemma trigger_connected (action : string) (s : state) :
  connected (robot s) = true ->
  trigger_robot_action action s
  = (Ok true, with_threads (threads s ++ [T_run_action action]) s).
Proof.
  intros H. unfold trigger_robot_action, bind, get. rewrite H. reflexivity.
Qed.

Lemma trigger_disconnected (action : string) (s : state) :
  connected (robot s) = false ->
  trigger_robot_action action s = (Ok false, s).
Proof.
  intros H. unfold trigger_robot_action, bind, get. rewrite H. reflexivity.
Qed.

(** The state once the smile is counted and, when [moved], the movement. *)
Lemma handle_smile_formatted (E : env) (c : nat) (data : message) (now : Z)
    (s : state) :
  float_format (score_of data) = Ok tt ->
  print (action_of data) = Ok tt ->
  handle_smile E c data now s
  = (Ok tt,
     emit (map (fun client => Send client (smile_reply s data)) (iteration E s))
       (if negb (is_moving (robot s)) && connected (robot s) then
          with_threads (threads s ++ [T_run_action (action_of data)])
            (with_stats {| total_smiles := total_smiles (stats s) + 1;
                           total_movements := total_movements (stats s) + 1;
                           start_time := start_time (stats s);
                           last_smile := Some now |} s)
        else
          with_stats {| total_smiles := total_smiles (stats s) + 1;
                        total_movements := total_movements (stats s);
                        start_time := start_time (stats s);
                        last_smile := Some now |} s)).
Proof.
  intros Hf Hp. unfold handle_smile, smile_reply.
  unfold bind at 1, add_total_smiles, modify.
  unfold bind at 1, assign_last_smile, modify.
  unfold bind at 1, lift at 1. rewrite Hf.
  unfold bind at 1, lift. rewrite Hp.
  unfold bind at 1, get at 1. cbn [robot with_stats].
  destruct (is_moving (robot s)) eqn:Hm; cbn [negb andb].
  - unfold bind at 1, ret at 1. rewrite broadcast_reaches_all. reflexivity.
  - destruct (connected (robot s)) eqn:Hc.
    + unfold bind at 1. unfold bind at 1.
      rewrite trigger_connected by exact Hc.
      unfold bind at 1, add_total_movements, modify.
      unfold bind at 1, get, ret.
      rewrite broadcast_reaches_all. reflexivity.
    + unfold bind at 1. unfold bind at 1.
      rewrite trigger_disconnected by exact Hc.
      unfold ret. rewrite broadcast_reaches_all. reflexivity.
Qed.

Lemma handle_smile_unformatted (E : env) (c : nat) (data : message) (now : Z)
    (s : state) (x : exn) :
  float_format (score_of data) = Raise x ->
  handle_smile E c data now s
  = (Raise x,
     with_stats {| total_smiles := total_smiles (stats s) + 1;
                   total_movements := total_movements (stats s);
                   start_time := start_time (stats s);
                   last_smile := Some now |} s).
Proof.
  intros Hf. unfold handle_smile.
  unfold bind at 1, add_total_smiles, modify.
  unfold bind at 1, assign_last_smile, modify.
  unfold bind at 1, lift. rewrite Hf. reflexivity.
Qed.

(** The score formats and the action cannot be printed: the smile is
    counted and the handler raises. *)
Lemma handle_smile_unprinted (E : env) (c : nat) (data : message) (now : Z)
    (s : state) :
  float_format (score_of data) = Ok tt ->
  has_surrogate (action_of data) = true ->
  handle_smile E c data now s
  = (Raise UnicodeEncodeError,
     with_stats {| total_smiles := total_smiles (stats s) + 1;
                   total_movements := total_movements (stats s);
                   start_time := start_time (stats s);
                   last_smile := Some now |} s).
Proof.
  intros Hf Hp. unfold handle_smile.
  unfold bind at 1, add_total_smiles, modify.
  unfold bind at 1, assign_last_smile, modify.
  unfold bind at 1, lift at 1. rewrite Hf.
  unfold bind at 1, lift, print. rewrite Hp. reflexivity.
Qed.

Lemma in_order_permutation (A : Type) (place : A -> Z) (l : list A) :
  Permutation (in_order place l) l.
Proof.
  assert (Hi : forall x l', Permutation (insert_by place x l') (x :: l')).
  { intros x l'. induction l' as [|y l' IH]; cbn [insert_by]; [reflexivity|].
    destruct (place x <? place y); [reflexivity|].
    etransitivity; [apply perm_skip, IH | apply perm_swap]. }
  induction l as [|x l IH]; cbn [in_order fold_right]; [reflexivity|].
  etransitivity; [apply Hi | apply perm_skip, IH].
Qed.

(** Every smile_detected message increments [total_smiles] and sets
    [last_smile], busy or not, connected or not. When its log line is
    written (the score is absent or a number that formats as a float,
    and the action can be printed), the handler returns normally and
    the reply (status "Moving" with the score and the new
    [total_movements] when the trigger succeeds, status "Busy"
    otherwise) is sent once to every connected client, in the order of
    the set. *)
Theorem smile_counted_and_broadcast (E : env) (c : nat) (data : message)
    (now : Z) (s : state) :
  total_smiles (stats (snd (handle_smile E c data now s)))
    = total_smiles (stats s) + 1
  /\ last_smile (stats (snd (handle_smile E c data now s))) = Some now
  /\ (float_format (score_of data) = Ok tt ->
      print (action_of data) = Ok tt ->
      fst (handle_smile E c data now s) = Ok tt
      /\ trace (snd (handle_smile E c data now s))
         = trace s ++ map (fun client => Send client (smile_reply s data)) (iteration E s)
      /\ Permutation (iteration E s) (clients s)).
Proof.
  destruct (float_format (score_of data)) as [[]|x] eqn:Hf.
  - unfold print. destruct (has_surrogate (action_of data)) eqn:Hp.
    + rewrite (handle_smile_unprinted E c data now s Hf Hp). cbn [fst snd].
      split; [|split]; try reflexivity. discriminate.
    + assert (Hq : print (action_of data) = Ok tt) by (unfold print; now rewrite Hp).
      rewrite (handle_smile_formatted E c data now s Hf Hq). cbn [fst snd].
      destruct (negb (is_moving (robot s)) && connected (robot s));
        (split; [|split; [|intros _ _; split; [|split]]]); try reflexivity;
        apply in_order_permutation.
  - rewrite (handle_smile_unformatted E c data now s Hf). cbn [fst snd].
    split; [|split]; try reflexivity. discriminate.
Qed.

Lemma smile_counted_and_broadcast_witness :
  float_format (score_of dance_request) = Ok tt
  /\ print (action_of dance_request) = Ok tt
  /\ fst (handle_smile stocked 1 dance_request 5 (ready stocked)) = Ok tt
  /\ trace (snd (handle_smile stocked 1 dance_request 5 (ready stocked)))
     = trace (ready stocked)
       ++ map (fun client => Send client (smile_reply (ready stocked) dance_request))
              (iteration stocked (ready stocked)).
Proof.
  split; [reflexivity|]. split; [reflexivity|].
  destruct (proj2 (proj2 (smile_counted_and_broadcast stocked 1 dance_request 5
                            (ready stocked))) eq_refl eq_refl) as [H1 [H2 _]].
  split; [exact H1 | exact H2].
Defined.

(** C7 fails on the code. A smile_detected message with a numeric
    score whose action holds a lone surrogate is counted, then the log
    line of [handle_smile] raises when it prints the action: the reply
    is never broadcast, and of the clients 1 and 2 the sender alone
    receives an error. *)
Theorem smile_with_unprintable_action_not_broadcast :
  clients (ready bare) = [1; 2]%nat
  /\ float_format (PFloat 87.5) = Ok tt
  /\ total_smiles (stats (snd (receive bare 1 (smile (PFloat 87.5) lone_surrogate) 5
                                 (ready bare))))
     = total_smiles (stats (ready bare)) + 1
  /\ trace (snd (receive bare 1 (smile (PFloat 87.5) lone_surrogate) 5 (ready bare)))
     = trace (ready bare)
       ++ [Send 1 (PDict [("error", PErrorText UnicodeEncodeError)])].
Proof. vm_compute. repeat split; reflexivity. Qed.

(** ** The trigger *)

Lemma run_action_nothing_stored (E : env) (action : string) (s : state) :
  fallback action = None ->
  files E (seq_file_of action) = None ->
  run_action E action s = (Ok tt, s).
Proof.
  unfold fallback, run_action. intros Hfb Hfile.
  assert (Hp : play_sequence E action s = (Ok false, s)).
  { unfold play_sequence, bind, get.
    destruct (negb (connected (robot s)) || is_moving (robot s));
      [reflexivity | now rewrite Hfile]. }
  destruct (String.eqb action "wave"); [discriminate|].
  destruct (String.eqb action "nod"); [discriminate|].
  destruct (String.eqb action "dance"); [discriminate|].
  destruct (String.eqb action "custom") eqn:Hc.
  - apply String.eqb_eq in Hc. subst action.
    unfold bind at 1. now rewrite Hp.
  - unfold bind at 1. now rewrite Hp.
Qed.

(** C9. On a connected engine [trigger_robot_action] returns [True]
    for every action, busy or not, stored or not: it only starts the
    thread. So a smile handled (its log line written) while the engine
    is connected and not busy at the handler's check adds exactly one
    to [total_movements],
    without any actuator command by the handler; and when the action is
    none of wave, nod, dance and has no stored file, the thread it
    started does nothing at all. *)
Theorem trigger_always_succeeds (E : env) (s : state) :
  connected (robot s) = true ->
  (forall action,
      trigger_robot_action action s
      = (Ok true, with_threads (threads s ++ [T_run_action action]) s))
  /\ (forall c data now,
         is_moving (robot s) = false ->
         float_format (score_of data) = Ok tt ->
         print (action_of data) = Ok tt ->
         total_movements (stats (snd (handle_smile E c data now s)))
           = total_movements (stats s) + 1
         /\ filter (fun e => negb (is_send e)) (trace (snd (handle_smile E c data now s)))
            = filter (fun e => negb (is_send e)) (trace s)
         /\ (fallback (action_of data) = None ->
             files E (seq_file_of (action_of data)) = None ->
             run_action E (action_of data) (snd (handle_smile E c data now s))
             = (Ok tt, snd (handle_smile E c data now s)))).
Proof.
  intros Hc. split.
  - intros action. now apply trigger_connected.
  - intros c data now Hm Hf Hp.
    rewrite (handle_smile_formatted E c data now s Hf Hp), Hm, Hc.
    cbn [negb andb snd]. split; [reflexivity|]. split.
    + cbn [trace emit with_threads with_stats]. rewrite filter_app.
      replace (filter (fun e => negb (is_send e))
                 (map (fun client => Send client (smile_reply s data)) (iteration E s)))
        with (@nil event); [now rewrite app_nil_r|].
      induction (iteration E s) as [|cl l IH]; [reflexivity | exact IH].
    + intros Hfb Hfile. now apply run_action_nothing_stored.
Qed.

Lemma trigger_always_succeeds_witness :
  connected (robot (ready bare)) = true
  /\ trigger_robot_action "happy" (ready bare)
     = (Ok true, with_threads (threads (ready bare) ++ [T_run_action "happy"]) (ready bare))
  /\ total_movements (stats (snd (handle_smile bare 1 happy_request 5 (ready bare))))
     = total_movements (stats (ready bare)) + 1
  /\ run_action bare "happy" (snd (handle_smile bare 1 happy_request 5 (ready bare)))
     = (Ok tt, snd (handle_smile bare 1 happy_request 5 (ready bare))).
Proof.
  assert (Hc : connected (robot (ready bare)) = true) by reflexivity.
  pose proof (trigger_always_succeeds bare (ready bare) Hc) as [Ht Hs].
  destruct (Hs 1%nat happy_request 5 eq_refl eq_refl eq_refl) as [Hn [_ Hr]].
  split; [exact Hc|]. split; [exact (Ht "happy")|]. split; [exact Hn|].
  exact (Hr eq_refl eq_refl).
Defined.

(** ** Dictionaries and sorting *)

Section Dict.

Variable V : Type.

Lemma dict_find_set (k k' : Z) (v : V) (d : list (Z * V)) :
  dict_find k (dict_set k' v d) = if k' =? k then Some v else dict_find k d.
Proof.
  induction d as [|[k0 v0] d IH]; simpl.
  - rewrite (Z.eqb_sym k k'). reflexivity.
  - destruct (k' =? k0) eqn:H0; simpl.
    + apply Z.eqb_eq in H0; subst k0. rewrite (Z.eqb_sym k k').
      destruct (k' =? k); reflexivity.
    + rewrite IH. destruct (k =? k0) eqn:H1; [|reflexivity].
      apply Z.eqb_eq in H1; subst k0. now rewrite H0.
Qed.

Lemma dict_set_set (k : Z) (v v' : V) (d : list (Z * V)) :
  dict_set k v (dict_set k v' d) = dict_set k v d.
Proof.
  induction d as [|[k0 v0] d IH]; simpl.
  - now rewrite Z.eqb_refl.
  - destruct (k =? k0) eqn:H0; simpl.
    + now rewrite Z.eqb_refl.
    + now rewrite H0, IH.
Qed.

Lemma keys_dict_set (k : Z) (v : V) (d : list (Z * V)) :
  keys (dict_set k v d) = if mem k (keys d) then keys d else keys d ++ [k].
Proof.
  unfold keys, mem. induction d as [|[k0 v0] d IH]; simpl.
  - reflexivity.
  - destruct (k =? k0) eqn:H0; simpl.
    + apply Z.eqb_eq in H0; now subst k0.
    + rewrite IH. now destruct (existsb (Z.eqb k) (map fst d)).
Qed.

Lemma dict_find_keys (k : Z) (d : list (Z * V)) :
  mem k (keys d) = match dict_find k d with Some _ => true | None => false end.
Proof.
  unfold keys, mem. induction d as [|[k0 v0] d IH]; simpl.
  - reflexivity.
  - destruct (k =? k0); [reflexivity | exact IH].
Qed.

End Dict.

Lemma mem_In (k : Z) (l : list Z) : mem k l = true <-> In k l.
Proof.
  unfold mem. rewrite existsb_exists. split.
  - intros [x [Hx He]]. apply Z.eqb_eq in He. now subst.
  - intros H. exists k. split; [exact H | apply Z.eqb_refl].
Qed.

Lemma insert_sorted_In (x y : Z) (l : list Z) :
  In y (insert_sorted x l) <-> y = x \/ In y l.
Proof.
  induction l as [|z l IH]; simpl.
  - intuition.
  - destruct (x <=? z); simpl; [intuition|]. rewrite IH. intuition.
Qed.

Lemma sorted_In (y : Z) (l : list Z) : In y (sorted l) <-> In y l.
Proof.
  induction l as [|x l IH]; simpl; [reflexivity|].
  rewrite insert_sorted_In, IH. intuition.
Qed.

Lemma insert_sorted_ascending (x : Z) (l : list Z) :
  ~ In x l ->
  StronglySorted Z.lt l ->
  StronglySorted Z.lt (insert_sorted x l).
Proof.
  intros Hx Hs. induction Hs as [|z l Hs IH Hz]; simpl.
  - constructor; constructor.
  - destruct (x <=? z) eqn:Hle.
    + apply Z.leb_le in Hle.
      assert (x < z) by (assert (x <> z) by (intros ->; apply Hx; now left); lia).
      constructor.
      * now constructor.
      * constructor; [assumption|].
        rewrite Forall_forall in *. intros y Hy. specialize (Hz y Hy). lia.
    + apply Z.leb_gt in Hle. constructor.
      * apply IH. intros H. apply Hx. now right.
      * rewrite Forall_forall in *. intros y Hy.
        apply insert_sorted_In in Hy. destruct Hy as [->|Hy]; [lia | now apply Hz].
Qed.

Lemma sorted_ascending (l : list Z) :
  NoDup l -> StronglySorted Z.lt (sorted l).
Proof.
  induction 1 as [|x l Hx Hn IH]; simpl.
  - constructor.
  - apply insert_sorted_ascending; [|exact IH]. now rewrite sorted_In.
Qed.

Lemma distinct_from (l acc : list Z) :
  NoDup acc ->
  NoDup (fold_left (fun acc x => if mem x acc then acc else acc ++ [x]) l acc)
  /\ forall y, In y (fold_left (fun acc x => if mem x acc then acc else acc ++ [x]) l acc)
               <-> In y acc \/ In y l.
Proof.
  revert acc; induction l as [|x l IH]; intros acc Hn; simpl.
  - split; [exact Hn | intuition].
  - destruct (mem x acc) eqn:Hm.
    + destruct (IH acc Hn) as [H1 H2]. split; [exact H1|].
      intros y. rewrite H2. apply mem_In in Hm. intuition (subst; auto).
    + assert (Hn' : NoDup (acc ++ [x])).
      { apply NoDup_app; [exact Hn | constructor; [intros [] | constructor] |].
        intros a Ha [<-|[]]. apply mem_In in Ha. congruence. }
      destruct (IH _ Hn') as [H1 H2]. split; [exact H1|].
      intros y. rewrite H2, in_app_iff. simpl. intuition.
Qed.

Lemma distinct_NoDup (l : list Z) : NoDup (distinct l).
Proof. apply (@distinct_from l []). constructor. Qed.

Lemma distinct_In (y : Z) (l : list Z) : In y (distinct l) <-> In y l.
Proof.
  unfold distinct. rewrite (proj2 (@distinct_from l [] (NoDup_nil Z))).
  simpl. intuition.
Qed.

(** ** Loading a sequence *)

Lemma read_row_inserts (frames : frames_t) (row : csv_row) (r : record) :
  parse_row row = Some r ->
  read_row frames row = Ok (insert_record frames (reversal r)).
Proof.
  unfold parse_row, read_row.
  destruct (row_frame row) as [f|]; [|discriminate].
  destruct (row_servo_id row) as [sid|]; [|discriminate].
  destruct (row_angle row) as [a|]; [|discriminate].
  intros [= <-]. unfold reversal, insert_record.
  rewrite dict_find_keys.
  destruct (dict_find f frames) as [d|] eqn:Hd.
  - rewrite Hd. reflexivity.
  - rewrite dict_find_set, Z.eqb_refl, dict_set_set. reflexivity.
Qed.

Lemma read_rows_fold (rows : list csv_row) (recs : list record) (frames : frames_t) :
  parse_rows rows = Some recs ->
  read_rows rows frames = Ok (fold_left insert_record (map reversal recs) frames).
Proof.
  revert recs frames; induction rows as [|row rows IH]; intros recs frames; simpl.
  - intros [= <-]. reflexivity.
  - destruct (parse_row row) as [r|] eqn:Hr; [|discriminate].
    destruct (parse_rows rows) as [rs|]; [|discriminate].
    intros [= <-]. rewrite (read_row_inserts frames row Hr). simpl.
    now apply IH.
Qed.

Lemma keys_of_frames (recs : list record) (frames : frames_t) :
  keys (fold_left insert_record recs frames)
  = fold_left (fun acc x => if mem x acc then acc else acc ++ [x])
      (map frame_index recs) (keys frames).
Proof.
  revert frames; induction recs as [|[[f sid] a] recs IH]; intros frames; simpl.
  - reflexivity.
  - rewrite IH, keys_dict_set. reflexivity.
Qed.

Lemma frame_continued (f : Z) (recs : list record) (d : list (Z * float))
    (frames : frames_t) :
  dict_find f frames = Some d ->
  dict_find f (fold_left insert_record recs frames)
  = Some (fold_left
            (fun d r => let '(frame, sid, angle) := r in
                        if frame =? f then dict_set sid angle d else d)
            recs d).
Proof.
  revert d frames; induction recs as [|[[f' sid] a] recs IH]; intros d frames Hd; simpl.
  - exact Hd.
  - apply IH. unfold insert_record. rewrite dict_find_set.
    destruct (f' =? f) eqn:Hf.
    + apply Z.eqb_eq in Hf; subst f'. now rewrite Hd.
    + exact Hd.
Qed.

Lemma frame_started (f : Z) (recs : list record) (frames : frames_t) :
  dict_find f frames = None ->
  In f (map frame_index recs) ->
  dict_find f (fold_left insert_record recs frames)
  = Some (fold_left
            (fun d r => let '(frame, sid, angle) := r in
                        if frame =? f then dict_set sid angle d else d)
            recs []).
Proof.
  revert frames; induction recs as [|[[f' sid] a] recs IH]; intros frames Hd Hin; simpl.
  - destruct Hin.
  - destruct (f' =? f) eqn:Hf.
    + apply Z.eqb_eq in Hf; subst f'.
      apply frame_continued. unfold insert_record.
      now rewrite dict_find_set, Z.eqb_refl, Hd.
    + apply IH.
      * unfold insert_record. now rewrite dict_find_set, Hf.
      * destruct Hin as [H|H]; [|exact H].
        unfold frame_index in H; simpl in H. subst f'. now rewrite Z.eqb_refl in Hf.
Qed.

(** The frames the thread builds: their indices are those of the
    records, and each is the frame of its index. *)
Lemma frames_of_records (recs : list record) :
  keys (fold_left insert_record recs []) = distinct (map frame_index recs)
  /\ forall f, In f (map frame_index recs) ->
               dict_find f (fold_left insert_record recs []) = Some (frame_of recs f).
Proof.
  split.
  - apply keys_of_frames.
  - intros f Hf. now apply frame_started.
Qed.

(** ** Playing the frames *)

Lemma play_frame_moves (E : env) (frame_data : list (Z * float)) (s : state) :
  play_frame E frame_data s
  = (Ok tt, emit (frame_moves true (servos (robot s)) frame_data) s).
Proof.
  unfold play_frame, frame_moves, moves.
  revert s; induction frame_data as [|[sid a] fd IH]; intros s; simpl.
  - now rewrite emit_nil.
  - unfold bind at 1. unfold bind at 1, get at 1.
    destruct (mem sid (servos (robot s))) eqn:Hm.
    + unfold try_except, move, bind at 1, get at 1. rewrite Hm.
      unfold call, pass, ret.
      destruct (bus E (trace s) (Move sid a));
        rewrite IH, emit_emit; reflexivity.
    + unfold ret at 1. apply IH.
Qed.

Lemma with_delays_more (a b : list event) (l : list (list event)) :
  with_delays (a :: b :: l) = a ++ Sleep 500 :: with_delays (b :: l).
Proof. reflexivity. Qed.

Lemma for_each_frames (E : env) (frames : frames_t) (get_frame : Z -> list (Z * float))
    (n : nat) (l : list Z) (i : nat) (s : state) :
  (forall f, In f l -> dict_find f frames = Some (get_frame f)) ->
  n = (i + List.length l)%nat ->
  for_each (enumerate_from i l)
    (fun '(i, frame_num) =>
       match dict_find frame_num frames with
       | None => raise KeyError
       | Some frame_data =>
           play_frame E frame_data ;;
           if Z.of_nat i <? Z.of_nat n - 1 then sleep 500 else ret tt
       end) s
  = (Ok tt,
     emit (with_delays (map (fun f => frame_moves true (servos (robot s)) (get_frame f)) l))
       s).
Proof.
  revert i s; induction l as [|f l IH]; intros i s Hfind Hn.
  - simpl. now rewrite emit_nil.
  - cbn [enumerate_from for_each].
    unfold bind at 1. rewrite (Hfind f (or_introl eq_refl)).
    unfold bind at 1. rewrite play_frame_moves.
    destruct l as [|g l].
    + replace (Z.of_nat i <? Z.of_nat n - 1) with false
        by (symmetry; apply Z.ltb_ge; simpl in Hn; lia).
      unfold ret at 1. simpl. unfold ret. reflexivity.
    + replace (Z.of_nat i <? Z.of_nat n - 1) with true
        by (symmetry; apply Z.ltb_lt; simpl in Hn; lia).
      unfold sleep, modify.
      rewrite (IH (S i)).
      * rewrite !emit_emit. cbn [map]. rewrite with_delays_more.
        reflexivity.
      * intros f' Hf'. apply Hfind. now right.
      * simpl in *. lia.
Qed.

Lemma play_frames_events (E : env) (recs : list record) (s : state) :
  play_frames E (fold_left insert_record recs []) s
  = (Ok tt,
     emit (with_delays
             (map (fun f => frame_moves true (servos (robot s)) (frame_of recs f))
                  (sorted (distinct (map frame_index recs)))))
       s).
Proof.
  unfold play_frames, enumerate.
  destruct (frames_of_records recs) as [Hk Hf]. rewrite Hk.
  apply for_each_frames; [|reflexivity].
  intros f Hin. apply Hf. now rewrite sorted_In, distinct_In in Hin.
Qed.

(** ** Playback of a stored sequence *)

Lemma claim_steps (A : Type) (name : string) (k : M A) (s : state) :
  (assign_is_moving true ;; assign_current_action (Some name) ;; k) s
  = k (claimed name s).
Proof.
  unfold bind, assign_is_moving, assign_current_action, modify.
  f_equal. unfold claimed, emit. simpl. now rewrite <- app_assoc.
Qed.

Lemma release_steps (s : state) : release s = (Ok tt, released s).
Proof.
  unfold release, bind, assign_is_moving, assign_current_action, modify.
  f_equal. unfold released, emit. simpl. now rewrite <- app_assoc.
Qed.

Lemma play_body_events (E : env) (seq_file : string) (rows : list csv_row)
    (recs : list record) (s : state) :
  files E seq_file = Some rows ->
  parse_rows rows = Some recs ->
  play_body E seq_file s = (Ok tt, emit (playback true (robot s) recs) s).
Proof.
  intros Hfile Hparse. unfold play_body, load_sequence.
  rewrite Hfile, (read_rows_fold rows [] Hparse).
  unfold bind at 1, ret at 1.
  unfold bind at 1. rewrite play_frames_events.
  unfold bind at 1, sleep, modify.
  rewrite set_home_position_events.
  rewrite !emit_emit. unfold playback. cbn [robot emit].
  reflexivity.
Qed.

(** C5 (amended). A stored sequence whose records all convert is
    played as follows: [is_moving] and [current_action] are set; the
    angle of every record of a reversed actuator becomes 240 - angle,
    once; the frames are taken by ascending index; within a frame a
    move is sent to every actuator of the frame that is connected,
    whatever the bus answers to the moves before; 500 ms pass between
    two frames and none after the last; then 500 ms pass and
    [set_home_position] is called; and both flags are cleared. *)
Theorem playback_of_stored_sequence (E : env) (s : state)
    (seq_file name : string) (rows : list csv_row) (recs : list record) :
  files E seq_file = Some rows ->
  parse_rows rows = Some recs ->
  _play_sequence_thread E seq_file name s
  = (Ok tt, released (emit (playback true (robot s) recs) (claimed name s)))
  /\ StronglySorted Z.lt (sorted (distinct (map frame_index (map reversal recs)))).
Proof.
  intros Hfile Hparse. split.
  - unfold _play_sequence_thread, try_finally, try_except.
    rewrite claim_steps.
    rewrite (play_body_events E seq_file (claimed name s) Hfile Hparse).
    rewrite release_steps. reflexivity.
  - apply sorted_ascending, distinct_NoDup.
Qed.

Lemma playback_of_stored_sequence_witness :
  files stocked "poses/dance.csv"
  = Some [row 5 1 140%float; row 0 1 100%float; row 0 2 50%float; row 0 11 7%float]
  /\ parse_rows [row 5 1 140%float; row 0 1 100%float; row 0 2 50%float; row 0 11 7%float]
     = Some dance_records
  /\ _play_sequence_thread stocked "poses/dance.csv" "dance" (ready stocked)
     = (Ok tt,
        released (emit (playback true (robot (ready stocked)) dance_records)
                    (claimed "dance" (ready stocked)))).
Proof.
  split; [reflexivity|]. split; [reflexivity|].
  exact (proj1 (@playback_of_stored_sequence stocked (ready stocked)
                  "poses/dance.csv" "dance" _ dance_records eq_refl eq_refl)).
Defined.

(** C5, as stated, fails: with actuator 2 alone connected, the stored
    dance names actuators 1, 2 and 11 in its frame 0; a move to every
    actuator of the frame would include actuator 1, and the thread
    sends none to it. *)
Lemma playback_skips_unconnected_actuators :
  servos (robot (exec lone [Connect] (initial 0))) = [2]
  /\ existsb (is_move_to 1)
       (playback false (robot (exec lone [Connect] (initial 0))) dance_records)
     = true
  /\ existsb (is_move_to 1)
       (trace (snd (_play_sequence_thread lone "poses/dance.csv" "dance"
                      (exec lone [Connect] (initial 0)))))
     = false
  /\ _play_sequence_thread lone "poses/dance.csv" "dance" (exec lone [Connect] (initial 0))
     <> (Ok tt,
         released (emit (playback false (robot (exec lone [Connect] (initial 0)))
                           dance_records)
                     (claimed "dance" (exec lone [Connect] (initial 0))))).
Proof.
  split; [vm_compute; reflexivity|]. split; [vm_compute; reflexivity|].
  split; [vm_compute; reflexivity|].
  intros H.
  apply (f_equal (fun r => existsb (is_move_to 1) (trace (snd r)))) in H.
  vm_compute in H. discriminate.
Qed.

(** ** The built-in motions *)

Section Emits.

Variable P : event -> Prop.

Lemma emits_only_ret (A : Type) (a : A) : emits_only P (ret a).
Proof. intros s. exists []. simpl. now rewrite emit_nil. Qed.

Lemma emits_only_raise (A : Type) (x : exn) : emits_only P (@raise A x).
Proof. intros s. exists []. simpl. now rewrite emit_nil. Qed.

Lemma emits_only_get : emits_only P get.
Proof. intros s. exists []. simpl. now rewrite emit_nil. Qed.

Lemma emits_only_call (E : env) (e : event) : P e -> emits_only P (call E e).
Proof. intros He s. exists [e]. split; [reflexivity | now constructor]. Qed.

Lemma emits_only_sleep (ms : Z) : P (Sleep ms) -> emits_only P (sleep ms).
Proof. intros He s. exists [Sleep ms]. split; [reflexivity | now constructor]. Qed.

Lemma emits_only_bind (A B : Type) (m : M A) (k : A -> M B) :
  emits_only P m -> (forall a, emits_only P (k a)) -> emits_only P (bind m k).
Proof.
  intros Hm Hk s. unfold bind. destruct (Hm s) as [e1 [H1 F1]].
  destruct (m s) as [[a|x] s1]; simpl in H1; subst s1.
  - destruct (Hk a (emit e1 s)) as [e2 [H2 F2]]. exists (e1 ++ e2).
    rewrite H2, emit_emit. split; [reflexivity | now apply Forall_app].
  - now exists e1.
Qed.

Lemma emits_only_try_except (A : Type) (m : M A) (h : exn -> M A) :
  emits_only P m -> (forall x, emits_only P (h x)) -> emits_only P (try_except m h).
Proof.
  intros Hm Hh s. unfold try_except. destruct (Hm s) as [e1 [H1 F1]].
  destruct (m s) as [[a|x] s1]; simpl in H1; subst s1.
  - now exists e1.
  - destruct (Hh x (emit e1 s)) as [e2 [H2 F2]]. exists (e1 ++ e2).
    rewrite H2, emit_emit. split; [reflexivity | now apply Forall_app].
Qed.

Lemma emits_only_for_each (A : Type) (l : list A) (f : A -> M unit) :
  (forall x, emits_only P (f x)) -> emits_only P (for_each l f).
Proof.
  intros Hf. induction l as [|x l IH]; simpl.
  - apply emits_only_ret.
  - apply emits_only_bind; [apply Hf | intros _; exact IH].
Qed.

Lemma emits_only_repeat_n (n : nat) (m : M unit) :
  emits_only P m -> emits_only P (repeat_n n m).
Proof.
  intros Hm. induction n as [|n IH]; simpl.
  - apply emits_only_ret.
  - apply emits_only_bind; [exact Hm | intros _; exact IH].
Qed.

End Emits.

(** Decomposes a computation into the primitives above. *)
Ltac emits :=
  unfold only_emits;
  repeat first
    [ apply emits_only_ret | apply emits_only_raise | apply emits_only_get
    | apply emits_only_call; solve [simpl; auto]
    | apply emits_only_sleep; solve [simpl; auto]
    | apply emits_only_bind; [|intros ?]
    | apply emits_only_try_except; [|intros ?]
    | apply emits_only_for_each; intros ?
    | apply emits_only_repeat_n
    | match goal with
      | |- emits_only _ (if ?b then _ else _) => destruct b
      | |- emits_only _ (let '(_, _) := ?p in _) => destruct p
      | |- emits_only _ (match ?o with _ => _ end) => destruct o
      end ].


Lemma only_emits_move (E : env) (sid : Z) (angle : float) :
  only_emits (move E sid angle).
Proof. unfold move. emits. Qed.


Lemma only_emits_play_frame (E : env) (frame_data : list (Z * float)) :
  only_emits (play_frame E frame_data).
Proof. unfold play_frame, pass. emits. Qed.








Lemma simple_runs_body (E : env) (m : motion) (s : state) :
  connected (robot s) = true ->
  is_moving (robot s) = false ->
  simple E m s
  = (Ok tt, released (snd (body E (K_simple m) (claimed (motion_name m) s)))).
Proof.
  intros Hc Hm.
  destruct m; unfold simple, simple_wave, simple_nod, simple_dance;
    unfold bind at 1, not_ready, bind at 1, get, ret at 1; rewrite Hc, Hm;
    cbn [negb orb];
    unfold try_finally, try_except; rewrite claim_steps; cbn [body motion_name];
    match goal with
    | |- context [?b (claimed ?n s)] =>
        destruct (b (claimed n s)) as [[[]|x] s1]
    end; unfold pass, ret; rewrite release_steps; reflexivity.
Qed.




(** ** The fallback of run_action *)

Lemma simple_not_ready (E : env) (m : motion) (s : state) :
  connected (robot s) = false \/ is_moving (robot s) = true ->
  simple E m s = (Ok tt, s) /\ step_task E (T_simple m) s = (Ok T_done, s).
Proof.
  intros H.
  assert (Hg : negb (connected (robot s)) || is_moving (robot s) = true).
  { destruct H as [H|H]; rewrite H; [reflexivity | apply orb_true_r]. }
  split.
  - destruct m; unfold simple, simple_wave, simple_nod, simple_dance;
      unfold bind at 1, not_ready, bind at 1, get, ret at 1; now rewrite Hg.
  - unfold step_task, bind at 1, not_ready, bind at 1, get, ret at 1.
    now rewrite Hg.
Qed.

Lemma fallback_names (action : string) (m : motion) :
  fallback action = Some m -> action = motion_name m.
Proof.
  unfold fallback.
  destruct (String.eqb action "wave") eqn:H1;
    [intros [= <-]; now apply String.eqb_eq|].
  destruct (String.eqb action "nod") eqn:H2;
    [intros [= <-]; now apply String.eqb_eq|].
  destruct (String.eqb action "dance") eqn:H3;
    [intros [= <-]; now apply String.eqb_eq|].
  discriminate.
Qed.

Lemma run_action_builtin (E : env) (m : motion) (s : state) :
  run_action E (motion_name m) s
  = (ok <- play_sequence E (motion_name m) ;;
     if negb ok then simple E m else ret tt) s.
Proof. destruct m; reflexivity. Qed.

Lemma run_action_other (E : env) (action : string) (s : state) :
  fallback action = None ->
  run_action E action s = (_ <- play_sequence E action ;; ret tt) s.
Proof.
  unfold fallback, run_action.
  destruct (String.eqb action "wave"); [discriminate|].
  destruct (String.eqb action "nod"); [discriminate|].
  destruct (String.eqb action "dance"); [discriminate|].
  destruct (String.eqb action "custom") eqn:Hc; [|reflexivity].
  apply String.eqb_eq in Hc. now subst action.
Qed.

Lemma play_sequence_returns (E : env) (name : string) (s : state) :
  exists ok, fst (play_sequence E name s) = Ok ok.
Proof.
  unfold play_sequence, bind, get.
  destruct (negb (connected (robot s)) || is_moving (robot s)); [now exists false|].
  destruct (files E (seq_file_of name)); [now exists true | now exists false].
Qed.

Lemma play_sequence_false (E : env) (name : string) (s : state) :
  fst (play_sequence E name s) = Ok false -> play_sequence E name s = (Ok false, s).
Proof.
  unfold play_sequence, bind, get.
  destruct (negb (connected (robot s)) || is_moving (robot s)); [reflexivity|].
  destruct (files E (seq_file_of name)); [discriminate | reflexivity].
Qed.

(** C3 (amended). For wave, nod and dance, [run_action] calls the
    built-in motion whenever [play_sequence] returns [False], whatever
    made it do so - no file, a busy engine or no connection - and not
    when it returns [True]; the built-in motion tests the connection
    and the busy flag again and does nothing when the test fails. For
    custom and for every other name, [play_sequence] is all that is
    called. *)
Theorem fallback_follows_any_refusal (E : env) (action : string) (s : state) :
  (forall m, fallback action = Some m ->
     (fst (play_sequence E action s) = Ok false ->
        step_task E (T_run_action action) s = (Ok (T_simple m), s)
        /\ run_action E action s = simple E m s)
     /\ (fst (play_sequence E action s) = Ok true ->
           step_task E (T_run_action action) s
             = (Ok T_done, snd (play_sequence E action s))
           /\ run_action E action s = (Ok tt, snd (play_sequence E action s)))
     /\ (connected (robot s) = false \/ is_moving (robot s) = true ->
           simple E m s = (Ok tt, s)
           /\ step_task E (T_simple m) s = (Ok T_done, s)))
  /\ (fallback action = None ->
        step_task E (T_run_action action) s
          = (Ok T_done, snd (play_sequence E action s))
        /\ run_action E action s = (Ok tt, snd (play_sequence E action s))).
Proof.
  split.
  - intros m Hm. pose proof (fallback_names action Hm) as Ha. subst action.
    split; [|split].
    + intros Hf. apply play_sequence_false in Hf. split.
      * unfold step_task, bind. now rewrite Hf, Hm.
      * rewrite run_action_builtin. unfold bind. now rewrite Hf.
    + intros Ht. split.
      * unfold step_task, bind.
        destruct (play_sequence E (motion_name m) s) as [[[]|x] s1];
          try discriminate. now rewrite Hm.
      * rewrite run_action_builtin. unfold bind.
        destruct (play_sequence E (motion_name m) s) as [[[]|x] s1];
          try discriminate. reflexivity.
    + apply simple_not_ready.
  - intros Hn. destruct (play_sequence_returns E action s) as [ok Hok]. split.
    + unfold step_task, bind.
      destruct (play_sequence E action s) as [[o|x] s1]; [|discriminate].
      now rewrite Hn.
    + rewrite (run_action_other E action s Hn). unfold bind.
      destruct (play_sequence E action s) as [[o|x] s1]; [|discriminate].
      reflexivity.
Qed.

Lemma fallback_follows_any_refusal_witness :
  fallback "wave" = Some Wave
  /\ fst (play_sequence stocked "wave" (exec stocked dance_playing (initial 0))) = Ok false
  /\ step_task stocked (T_run_action "wave") (exec stocked dance_playing (initial 0))
     = (Ok (T_simple Wave), exec stocked dance_playing (initial 0))
  /\ fallback "custom" = None
  /\ run_action stocked "custom" (exec stocked dance_playing (initial 0))
     = (Ok tt, snd (play_sequence stocked "custom" (exec stocked dance_playing (initial 0)))).
Proof.
  pose proof (fallback_follows_any_refusal stocked "wave"
                (exec stocked dance_playing (initial 0))) as [Hw _].
  pose proof (fallback_follows_any_refusal stocked "custom"
                (exec stocked dance_playing (initial 0))) as [_ Hc].
  split; [reflexivity|]. split; [reflexivity|].
  split; [exact (proj1 (proj1 (Hw Wave eq_refl) eq_refl))|].
  split; [reflexivity|]. exact (proj2 (Hc eq_refl)).
Defined.

(** C3, as stated, fails. The file of the wave is stored, so
    [play_sequence('wave')] never reports it missing. Requested while
    the dance plays, it returns [False] because the engine is busy, and
    [run_action] goes on to [simple_wave]; once the dance has released
    the engine, [simple_wave] passes its own test and the built-in wave
    is performed (the move of actuator 1 to 180 degrees is its first). *)
Lemma wave_falls_back_when_busy :
  files stocked (seq_file_of "wave")
    = Some [row 0 1 100%float; row 1 1 140%float]
  /\ is_moving (robot (exec stocked dance_playing (initial 0))) = true
  /\ step_task stocked (T_run_action "wave") (exec stocked dance_playing (initial 0))
     = (Ok (T_simple Wave), exec stocked dance_playing (initial 0))
  /\ existsb (is_move 1 180) (trace (exec stocked dance_playing (initial 0))) = false
  /\ existsb (is_move 1 180) (trace (exec stocked wave_after_dance (initial 0))) = true.
Proof. vm_compute. repeat split; reflexivity. Qed.

(** ** The flags under every interleaving *)

Lemma benign_refl (s : state) : benign s s.
Proof. repeat split; auto. exists []. now rewrite app_nil_r. Qed.

Lemma benign_trans (s1 s2 s3 : state) :
  benign s1 s2 -> benign s2 s3 -> benign s1 s3.
Proof.
  intros [Ha [Hb [l1 Hc]]] [Ha' [Hb' [l2 Hc']]]. repeat split.
  - auto.
  - congruence.
  - exists (l1 ++ l2). now rewrite Hc', Hc, app_assoc.
Qed.

Lemma benign_emit (evs : list event) (s : state) : benign s (emit evs s).
Proof. repeat split; auto. exists []. simpl. now rewrite app_nil_r. Qed.

Lemma benign_same (s s' : state) :
  is_moving (robot s') = is_moving (robot s) ->
  current_action (robot s') = current_action (robot s) ->
  threads s' = threads s ->
  benign s s'.
Proof.
  intros H1 H2 H3. repeat split.
  - now rewrite H1.
  - exact H2.
  - exists []. now rewrite app_nil_r.
Qed.

Lemma harmless_only_emits (A : Type) (m : M A) : only_emits m -> harmless m.
Proof. intros H s. destruct (H s) as [evs [-> _]]. apply benign_emit. Qed.

Lemma harmless_modify (f : state -> state) :
  (forall s, benign s (f s)) -> harmless (modify f).
Proof. intros H s. apply H. Qed.

Lemma harmless_bind (A B : Type) (m : M A) (k : A -> M B) :
  harmless m -> (forall a, harmless (k a)) -> harmless (bind m k).
Proof.
  intros Hm Hk s. unfold bind. specialize (Hm s).
  destruct (m s) as [[a|x] s1]; simpl in Hm.
  - eapply benign_trans; [exact Hm | apply Hk].
  - exact Hm.
Qed.

Lemma harmless_try_except (A : Type) (m : M A) (h : exn -> M A) :
  harmless m -> (forall x, harmless (h x)) -> harmless (try_except m h).
Proof.
  intros Hm Hh s. unfold try_except. specialize (Hm s).
  destruct (m s) as [[a|x] s1]; simpl in Hm.
  - exact Hm.
  - eapply benign_trans; [exact Hm | apply Hh].
Qed.

Lemma harmless_for_each (A : Type) (l : list A) (f : A -> M unit) :
  (forall x, harmless (f x)) -> harmless (for_each l f).
Proof.
  intros Hf. induction l as [|x l IH]; simpl.
  - intros s. apply benign_refl.
  - apply harmless_bind; [apply Hf | intros _; exact IH].
Qed.

Lemma harmless_start_thread (t : task) : harmless (start_thread t).
Proof. intros s. repeat split; auto. now exists [t]. Qed.

Lemma harmless_clear_moving : harmless (assign_is_moving false).
Proof. intros s. repeat split; try discriminate. exists []. simpl. now rewrite app_nil_r. Qed.

(** Decomposes a computation that leaves the flags alone. *)
Ltac harmless :=
  repeat first
    [ apply harmless_start_thread | apply harmless_clear_moving
    | apply harmless_bind; [|intros ?]
    | apply harmless_try_except; [|intros ?]
    | apply harmless_for_each; intros ?
    | match goal with
      | |- harmless (if ?b then _ else _) => destruct b
      | |- harmless (match ?o with Some _ => _ | None => _ end) => destruct o
      end
    | apply harmless_only_emits; solve [emits]
    | apply harmless_modify; intros ?; solve [apply benign_same; reflexivity] ].

Lemma only_emits_set_home_position (E : env) : only_emits (set_home_position E).
Proof. unfold set_home_position, pass. emits. Qed.

Lemma only_emits_body (E : env) (k : kind) : only_emits (body E k).
Proof.
  destruct k as [seq_file name|[]]; cbn [body].
  - unfold play_body, load_sequence, play_frames. emits.
  - unfold wave_body. emits.
  - unfold nod_body. emits.
  - unfold dance_body. emits.
Qed.

Lemma harmless_connect (E : env) : harmless (connect E).
Proof. unfold connect, pass. harmless. Qed.

Lemma harmless_play_sequence (E : env) (name : string) :
  harmless (play_sequence E name).
Proof. unfold play_sequence. harmless. Qed.

Lemma harmless_emergency_stop (E : env) : harmless (emergency_stop E).
Proof. unfold emergency_stop, pass. harmless. Qed.

Lemma harmless_disconnect (E : env) : harmless (disconnect E).
Proof. unfold disconnect, pass. harmless. Qed.

Lemma harmless_trigger (action : string) : harmless (trigger_robot_action action).
Proof. unfold trigger_robot_action. harmless. Qed.

Lemma harmless_handle_smile (E : env) (c : nat) (data : message) (now : Z) :
  harmless (handle_smile E c data now).
Proof.
  unfold handle_smile, broadcast, pass.
  apply harmless_bind; [harmless | intros _].
  apply harmless_bind; [harmless | intros _].
  apply harmless_bind; [intros s; apply benign_refl | intros _].
  apply harmless_bind; [intros s; apply benign_refl | intros _].
  apply harmless_bind; [harmless | intros s].
  apply harmless_bind; [|intros r; harmless].
  destruct (negb (is_moving (robot s))); [|harmless].
  apply harmless_bind; [apply harmless_trigger | intros ok].
  destruct ok; harmless.
Qed.

Lemma harmless_handle_test_action (E : env) (c : nat) (data : message) :
  harmless (handle_test_action E c data).
Proof.
  unfold handle_test_action.
  apply harmless_bind; [intros s; apply benign_refl | intros _].
  apply harmless_bind; [|intros r; harmless].
  destruct (String.eqb (action_of data) "stop").
  - apply harmless_bind; [apply harmless_emergency_stop | intros _; harmless].
  - apply harmless_bind; [apply harmless_trigger | intros ok].
    destruct ok; harmless.
Qed.

Lemma harmless_send_status (c : nat) (E : env) (now : Z) : harmless (send_status E c now).
Proof. unfold send_status. harmless. Qed.

Lemma harmless_process_message (E : env) (c : nat) (raw : inbound) (now : Z) :
  harmless (process_message E c raw now).
Proof.
  unfold process_message. apply harmless_try_except.
  - destruct raw as [| |data]; [harmless | harmless |].
    cbv zeta.
    apply harmless_bind; [intros s; apply benign_refl | intros _].
    destruct (command_is (msg_command data) "smile_detected");
      [apply harmless_handle_smile|].
    destruct (command_is (msg_command data) "test_action");
      [apply harmless_handle_test_action|].
    destruct (command_is (msg_command data) "get_status");
      [apply harmless_send_status|].
    harmless.
  - intros x. destruct x; harmless.
Qed.

Lemma harmless_do_label (E : env) (l : label) :
  (forall i, l <> Run i) -> harmless (do_label E l).
Proof.
  intros Hl. destruct l; cbn [do_label].
  - now elim (Hl i).
  - unfold accept_client, pass. apply harmless_try_except; [|intros x; harmless].
    apply harmless_bind; [harmless | intros _; apply harmless_send_status].
  - unfold receive, remove_client. apply harmless_try_except.
    + apply harmless_process_message.
    + intros x. harmless.
  - unfold remove_client. harmless.
  - apply harmless_bind; [apply harmless_connect | intros b; harmless].
  - apply harmless_bind; [apply harmless_play_sequence | intros b; harmless].
  - harmless.
  - apply harmless_emergency_stop.
  - apply harmless_disconnect.
Qed.

Lemma existsb_list_set_new (A : Type) (P : A -> bool) (l : list A) (i : nat) (x y : A) :
  nth_error l i = Some x -> P y = true -> existsb P (list_set i y l) = true.
Proof.
  revert i; induction l as [|z l IH]; intros [|i]; simpl; try discriminate.
  - intros _ ->. reflexivity.
  - intros Hn Hy. rewrite (IH i Hn Hy). apply orb_true_r.
Qed.

Lemma existsb_list_set_old (A : Type) (P : A -> bool) (l : list A) (i : nat) (x y : A) :
  nth_error l i = Some x -> P x = false ->
  existsb P l = true -> existsb P (list_set i y l) = true.
Proof.
  revert i; induction l as [|z l IH]; intros [|i]; simpl; try discriminate.
  - intros [= ->] ->. simpl. intros ->. apply orb_true_r.
  - intros Hn Hx. destruct (P z); [reflexivity|]. simpl. now apply IH.
Qed.

(** One statement of a thread: it returns normally, it only adds
    threads, and a flag that is set afterwards is held by the thread
    itself, or was set before by another. *)
Lemma step_task_flags (E : env) (t : task) (s : state) :
  exists t' s',
    step_task E t s = (Ok t', s')
    /\ (exists started, threads s' = threads s ++ started)
    /\ (is_moving (robot s') = true ->
        holds_busy t' = true \/ (is_moving (robot s) = true /\ holds_busy t = false))
    /\ (current_action (robot s') <> None ->
        holds_action t' = true
        \/ (current_action (robot s) <> None /\ holds_action t = false)).
Proof.
  assert (Hnil : forall l : list task, l = l ++ []) by (intros; now rewrite app_nil_r).
  destruct t as [action|m|k|k|k| | |]; cbn [step_task].
  - pose proof (harmless_play_sequence E action s) as [Hm [Ha Ht]].
    destruct (play_sequence_returns E action s) as [ok Hok].
    unfold bind. destruct (play_sequence E action s) as [[o|x] s1];
      [|discriminate]. simpl in Hm, Ha, Ht.
    exists (match fallback action with
            | Some m => if o then T_done else T_simple m
            | None => T_done
            end), s1.
    split; [destruct (fallback action); [destruct o|]; reflexivity|].
    split; [exact Ht|]. split.
    + intros H. right. auto.
    + intros H. right. rewrite Ha in H. auto.
  - unfold bind at 1, not_ready, bind at 1, get, ret at 1.
    exists (if negb (connected (robot s)) || is_moving (robot s)
            then T_done else T_set_moving (K_simple m)), s.
    split; [now destruct (negb (connected (robot s)) || is_moving (robot s))|].
    split; [exists []; apply Hnil|]. split; intros H; right; auto.
  - eexists _, _. split; [reflexivity|]. cbn.
    split; [exists []; apply Hnil|]. split; intros H; [left | right]; auto.
  - eexists _, _. split; [reflexivity|]. cbn.
    split; [exists []; apply Hnil|]. split; intros H; left; auto.
  - unfold bind, try_except, pass, ret.
    destruct (only_emits_body E k s) as [evs [Hs _]].
    destruct (body E k s) as [[[]|x] s1]; simpl in Hs; subst s1;
      (eexists _, _; split; [reflexivity|]; cbn;
       split; [exists []; apply Hnil|]; split; intros H; left; auto).
  - eexists _, _. split; [reflexivity|]. cbn.
    split; [exists []; apply Hnil|]. split; intros H; [discriminate | left; auto].
  - eexists _, _. split; [reflexivity|]. cbn.
    split; [exists []; apply Hnil|]. split; intros H; [right; auto | congruence].
  - eexists _, _. split; [reflexivity|]. cbn.
    split; [exists []; apply Hnil|]. split; intros H; right; auto.
Qed.

Lemma benign_keeps_backing (s s' : state) :
  benign s s' -> flags_backed s -> flags_backed s'.
Proof.
  intros [Hm [Ha [started Ht]]] [H1 H2]. split; intros H.
  - rewrite Ht, existsb_app, (H1 (Hm H)). reflexivity.
  - rewrite Ha in H. rewrite Ht, existsb_app, (H2 H). reflexivity.
Qed.

Lemma run_thread_keeps_backing (E : env) (i : nat) (s : state) :
  flags_backed s -> flags_backed (snd (run_thread E i s)).
Proof.
  intros [H1 H2]. unfold run_thread, bind at 1, get.
  destruct (nth_error (threads s) i) as [t|] eqn:Hn; [|now split].
  destruct (step_task_flags E t s) as [t' [s' [Hs [[started Ht] [Hb Ha]]]]].
  unfold bind, try_except. rewrite Hs. cbn [snd modify].
  assert (Hn' : nth_error (threads s') i = Some t).
  { rewrite Ht, nth_error_app1; [exact Hn|]. apply nth_error_Some. congruence. }
  split; cbn [robot threads with_threads]; intros H.
  - destruct (Hb H) as [Hnew | [Hold Hnot]].
    + exact (existsb_list_set_new holds_busy _ i t' Hn' Hnew).
    + apply (existsb_list_set_old holds_busy _ i t' Hn' Hnot).
      rewrite Ht, existsb_app, (H1 Hold). reflexivity.
  - destruct (Ha H) as [Hnew | [Hold Hnot]].
    + exact (existsb_list_set_new holds_action _ i t' Hn' Hnew).
    + apply (existsb_list_set_old holds_action _ i t' Hn' Hnot).
      rewrite Ht, existsb_app, (H2 Hold). reflexivity.
Qed.

Lemma do_label_keeps_backing (E : env) (l : label) (s : state) :
  flags_backed s -> flags_backed (snd (do_label E l s)).
Proof.
  intros H. destruct l as [i| | | | | | | |];
    try (apply (benign_keeps_backing (s := s)); [|exact H];
         apply harmless_do_label; discriminate).
  now apply run_thread_keeps_backing.
Qed.

Lemma exec_keeps_backing (E : env) (ls : list label) (s : state) :
  flags_backed s -> flags_backed (exec E ls s).
Proof.
  revert s; induction ls as [|l ls IH]; intros s H; simpl.
  - exact H.
  - apply IH. now apply do_label_keeps_backing.
Qed.

(** ** Two motions at once *)

(** C1 fails on the code. [play_sequence] tests [is_moving] in the
    calling thread and the flag is set by the first statement of the
    thread it starts: two requests that both pass the test before
    either thread has run give two playback threads that have claimed
    the engine at the same time. The built-in motions test and set the
    flag in two statements, with the same result. *)
Theorem two_motions_playing :
  (threads (exec stocked two_waves (initial 0))
   = [T_done; T_done;
      T_body (K_play "poses/wave.csv" "wave");
      T_body (K_play "poses/wave.csv" "wave")]
   /\ count_playing (exec stocked two_waves (initial 0)) = 2%nat)
  /\ (threads (exec bare nod_and_wave (initial 0))
      = [T_body (K_simple Nod); T_body (K_simple Wave)]
      /\ count_playing (exec bare nod_and_wave (initial 0)) = 2%nat).
Proof. vm_compute. repeat split; reflexivity. Qed.

(** ** The machine and the methods agree

    A thread run alone, statement by statement, does what the method
    does when it is called and runs to its end. *)

(** Runs the statements of a thread whose control point is known. *)
Ltac alone :=
  repeat (cbn [run_alone step_task kind_name body motion_name];
          unfold bind, try_except, try_finally, not_ready, get, assign_is_moving,
            assign_current_action, modify, pass, ret).

Lemma run_alone_play_sequence_thread (E : env) (seq_file name : string) (s : state) :
  run_alone E 5 (T_set_moving (K_play seq_file name)) s
  = _play_sequence_thread E seq_file name s.
Proof.
  unfold _play_sequence_thread, release. alone.
  destruct (play_body E seq_file _) as [[[]|x] s1]; alone; reflexivity.
Qed.

Lemma run_alone_simple (E : env) (m : motion) (s : state) :
  run_alone E 6 (T_simple m) s = simple E m s.
Proof.
  destruct m; unfold simple, simple_wave, simple_nod, simple_dance, release;
    alone;
    destruct (negb (connected (robot s)) || is_moving (robot s)); alone;
    try reflexivity;
    match goal with
    | |- context [?b E ?st] => destruct (b E st) as [[[]|x] s1]
    end; alone; reflexivity.
Qed.

Lemma run_alone_run_action (E : env) (action : string) (s : state) :
  run_alone E 7 (T_run_action action) s = run_action E action s.
Proof.
  destruct (fallback action) as [m|] eqn:Hf.
  - pose proof (fallback_names action Hf) as ->.
    rewrite run_action_builtin.
    change (run_alone E 7 (T_run_action (motion_name m)) s)
      with ((t' <- step_task E (T_run_action (motion_name m)) ;; run_alone E 6 t') s).
    cbn [step_task]. rewrite Hf. unfold bind at 1 3.
    unfold bind at 1.
    destruct (play_sequence E (motion_name m) s) as [[[]|x] s1]; try reflexivity.
    cbn [negb]. unfold ret at 1. apply run_alone_simple.
  - rewrite (run_action_other E action s Hf).
    change (run_alone E 7 (T_run_action action) s)
      with ((t' <- step_task E (T_run_action action) ;; run_alone E 6 t') s).
    cbn [step_task]. rewrite Hf. unfold bind.
    destruct (play_sequence E action s) as [[o|x] s1]; reflexivity.
Qed.

(** ** The stop request *)

(** The request [test_action] with action "stop" runs [emergency_stop]
    and answers the sender alone, with status "Stopped" (when the send
    succeeds). *)
Lemma stop_request (E : env) (c : nat) (data : message) (s : state) :
  action_of data = "stop" ->
  snd (handle_test_action E c data s)
  = emit [Send c (PDict [("message", PStr "Emergency stop activated");
                         ("status", PStr "Stopped")])]
      (snd (emergency_stop E s)).
Proof.
  intros Ha. unfold handle_test_action. rewrite Ha. cbn [String.eqb Ascii.eqb Bool.eqb].
  unfold bind at 1. change (lift (print "stop") s) with (@Ok unit tt, s). cbv iota beta.
  unfold bind at 1. unfold bind at 1. destruct (emergency_stop E s) as [[[]|x] s1] eqn:He.
  - unfold ret, call. reflexivity.
  - pose proof (emergency_stop_halts E s) as Hh. rewrite He in Hh. discriminate.
Qed.

(** * Further properties *)

(** ** The playback thread, whatever the file and the bus *)

Lemma play_body_motion_events (E : env) (seq_file : string) :
  emits_only motion_event (play_body E seq_file).
Proof.
  unfold play_body, load_sequence, play_frames, play_frame, move,
    set_home_position, pass.
  emits.
Qed.

(** The playback thread returns normally and clears both flags at its
    end, whatever the file holds and whatever the bus answers; between
    setting and clearing them it only moves actuators and sleeps. *)
Theorem playback_always_releases (E : env) (seq_file name : string) (s : state) :
  exists evs,
    _play_sequence_thread E seq_file name s
    = (Ok tt, released (emit evs (claimed name s)))
    /\ Forall motion_event evs.
Proof.
  destruct (play_body_motion_events E seq_file (claimed name s)) as [evs [Hs Hall]].
  exists evs. split; [|exact Hall].
  unfold _play_sequence_thread, try_finally, try_except.
  rewrite claim_steps.
  destruct (play_body E seq_file (claimed name s)) as [[[]|x] s1];
    simpl in Hs; subst s1; unfold pass, ret; now rewrite release_steps.
Qed.

Lemma read_rows_fails (rows : list csv_row) (frames : frames_t) :
  parse_rows rows = None -> exists x, read_rows rows frames = Raise x.
Proof.
  revert frames; induction rows as [|row rows IH]; intros frames; simpl.
  - discriminate.
  - destruct (parse_row row) as [r|] eqn:Hr.
    + rewrite (read_row_inserts frames row Hr).
      destruct (parse_rows rows); [discriminate|]. intros _. now apply IH.
    + intros _. exists ValueError. unfold parse_row in Hr. unfold read_row.
      destruct (row_frame row); [|reflexivity].
      destruct (row_servo_id row); [|reflexivity].
      destruct (row_angle row); [discriminate | reflexivity].
Qed.

(** A sequence file that is gone when the thread opens it, or that has
    a record whose cells do not convert, anywhere in the file, makes
    the thread set and clear the flags and nothing else: the whole file
    is read before the first move, so no actuator is moved, nothing is
    slept and the home position is not sent. *)
Theorem unreadable_sequence_moves_nothing (E : env) (seq_file name : string)
    (s : state) :
  files E seq_file = None
  \/ (exists rows, files E seq_file = Some rows /\ parse_rows rows = None) ->
  _play_sequence_thread E seq_file name s = (Ok tt, released (claimed name s)).
Proof.
  intros H.
  assert (Hb : exists x, play_body E seq_file (claimed name s)
                         = (Raise x, claimed name s)).
  { unfold play_body, load_sequence, bind.
    destruct H as [H | [rows [H Hp]]]; rewrite H.
    - now exists FileNotFoundError.
    - destruct (read_rows_fails rows [] Hp) as [x Hx]. rewrite Hx. now exists x. }
  destruct Hb as [x Hb].
  unfold _play_sequence_thread, try_finally, try_except.
  rewrite claim_steps, Hb. unfold pass, ret. now rewrite release_steps.
Qed.

Lemma unreadable_sequence_moves_nothing_witness :
  (files broken "poses/wave.csv" = None
   \/ (exists rows, files broken "poses/wave.csv" = Some rows
                    /\ parse_rows rows = None))
  /\ _play_sequence_thread broken "poses/wave.csv" "wave" (ready bare)
     = (Ok tt, released (claimed "wave" (ready bare))).
Proof.
  assert (H : files broken "poses/wave.csv" = None
              \/ (exists rows, files broken "poses/wave.csv" = Some rows
                               /\ parse_rows rows = None)).
  { right. eexists. split; reflexivity. }
  split; [exact H|].
  exact (unreadable_sequence_moves_nothing broken "poses/wave.csv" "wave"
           (ready bare) H).
Defined.

(** ** What the loaded frames hold *)

Lemma dict_find_frame_fold (f sid : Z) (recs : list record) (d : list (Z * float)) :
  dict_find sid
    (fold_left (fun d r => let '(frame, sid', angle) := r in
                           if frame =? f then dict_set sid' angle d else d)
               recs d)
  = fold_left
      (fun acc r => let '(frame, sid', angle) := r in
                    if (frame =? f) && (sid' =? sid) then Some angle else acc)
      recs (dict_find sid d).
Proof.
  revert d; induction recs as [|[[f' sid'] a] recs IH]; intros d; simpl.
  - reflexivity.
  - rewrite IH. f_equal. destruct (f' =? f); simpl; [|reflexivity].
    apply dict_find_set.
Qed.

Lemma last_angle_absent (f sid : Z) (recs : list record) (acc : option float) :
  ~ In f (map frame_index recs) ->
  fold_left
    (fun acc r => let '(frame, sid', angle) := r in
                  if (frame =? f) && (sid' =? sid) then Some angle else acc)
    recs acc
  = acc.
Proof.
  revert acc; induction recs as [|[[f' sid'] a] recs IH]; intros acc Hn; simpl.
  - reflexivity.
  - destruct (f' =? f) eqn:Hf.
    + apply Z.eqb_eq in Hf. subst f'. elim Hn. now left.
    + simpl. apply IH. intros H. apply Hn. now right.
Qed.

(** When every record converts, the frames that the thread builds
    answer [frames[f][sid]] with the angle of the last record of
    actuator [sid] in frame [f], reversed when the actuator is in
    [REVERSED], and have no entry where the file has no such record:
    of two records for the same frame and actuator the later one
    wins. *)
Theorem loaded_frames_hold_last_record (rows : list csv_row) (recs : list record) :
  parse_rows rows = Some recs ->
  exists frames,
    read_rows rows [] = Ok frames
    /\ forall f sid, frame_angle frames f sid = last_angle (map reversal recs) f sid.
Proof.
  intros Hp. exists (fold_left insert_record (map reversal recs) []).
  split; [now apply read_rows_fold|].
  intros f sid. unfold frame_angle, last_angle.
  destruct (frames_of_records (map reversal recs)) as [Hk Hf].
  destruct (in_dec Z.eq_dec f (map frame_index (map reversal recs))) as [Hin|Hout].
  - rewrite (Hf f Hin). unfold frame_of. now rewrite dict_find_frame_fold.
  - assert (Hnone : dict_find f (fold_left insert_record (map reversal recs) []) = None).
    { pose proof (dict_find_keys f (fold_left insert_record (map reversal recs) [])) as H.
      rewrite Hk in H.
      destruct (dict_find f (fold_left insert_record (map reversal recs) []));
        [|reflexivity].
      apply (proj1 (mem_In _ _)) in H. apply (proj1 (distinct_In _ _)) in H.
      contradiction. }
    rewrite Hnone. symmetry. now apply last_angle_absent.
Qed.

Lemma loaded_frames_hold_last_record_witness :
  parse_rows [row 0 1 100%float; row 0 2 50%float; row 0 1 30%float]
  = Some [(0, 1, 100%float); (0, 2, 50%float); (0, 1, 30%float)]
  /\ exists frames,
       read_rows [row 0 1 100%float; row 0 2 50%float; row 0 1 30%float] [] = Ok frames
       /\ forall f sid,
            frame_angle frames f sid
            = last_angle
                (map reversal [(0, 1, 100%float); (0, 2, 50%float); (0, 1, 30%float)])
                f sid.
Proof.
  split; [reflexivity|].
  exact (@loaded_frames_hold_last_record
           [row 0 1 100%float; row 0 2 50%float; row 0 1 30%float] _ eq_refl).
Defined.

(** ** How long a playback sleeps *)

Lemma slept_app (a b : list event) : slept (a ++ b) = slept a + slept b.
Proof.
  induction a as [|e a IH]; simpl; [reflexivity|].
  destruct e; rewrite ?IH; lia.
Qed.

Lemma slept_moves (l : list (Z * float)) : slept (moves l) = 0.
Proof. induction l as [|p l IH]; simpl; [reflexivity | exact IH]. Qed.

Lemma slept_home_position (r : RobotController) : slept (home_position r) = 0.
Proof.
  unfold home_position, home_sweep. destruct (connected r); [|reflexivity].
  induction (servos r) as [|sid l IH]; simpl; [reflexivity | exact IH].
Qed.

Lemma slept_with_delays (b : bool) (ids : list Z) (get_frame : Z -> list (Z * float))
    (l : list Z) :
  slept (with_delays (map (fun f => frame_moves b ids (get_frame f)) l))
  = 500 * (Z.max 1 (Z.of_nat (List.length l)) - 1).
Proof.
  induction l as [|f l IH]; [reflexivity|].
  destruct l as [|g l].
  - simpl. unfold frame_moves. rewrite slept_moves. reflexivity.
  - cbn [map] in *. rewrite with_delays_more, slept_app.
    cbn [slept]. rewrite IH. unfold frame_moves at 1. rewrite slept_moves.
    cbn [List.length]. lia.
Qed.

Lemma insert_sorted_length (x : Z) (l : list Z) :
  List.length (insert_sorted x l) = S (List.length l).
Proof.
  induction l as [|y l IH]; simpl; [reflexivity|].
  destruct (x <=? y); simpl; [reflexivity | now rewrite IH].
Qed.

Lemma sorted_length (l : list Z) : List.length (sorted l) = List.length l.
Proof.
  induction l as [|x l IH]; simpl; [reflexivity|].
  now rewrite insert_sorted_length, IH.
Qed.

Lemma frame_index_reversal (recs : list record) :
  map frame_index (map reversal recs) = map frame_index recs.
Proof.
  induction recs as [|[[f sid] a] recs IH]; simpl; [reflexivity | now rewrite IH].
Qed.

(** Playing a stored sequence whose records all convert sleeps 500 ms
    per distinct frame index of the file - between the frames, and once
    more before the home position - and 500 ms when the file has no
    record at all; the number of records, of actuators, and the answers
    of the bus do not change it. *)
Theorem playback_sleeps_per_frame (E : env) (s : state) (seq_file name : string)
    (rows : list csv_row) (recs : list record) :
  files E seq_file = Some rows ->
  parse_rows rows = Some recs ->
  slept (trace (snd (_play_sequence_thread E seq_file name s)))
  = slept (trace s)
    + 500 * Z.max 1 (Z.of_nat (List.length (distinct (map frame_index recs)))).
Proof.
  intros Hfile Hparse.
  unfold _play_sequence_thread, try_finally, try_except.
  rewrite claim_steps.
  rewrite (play_body_events E seq_file (claimed name s) Hfile Hparse).
  rewrite release_steps. cbn [snd].
  unfold released, claimed. cbn [trace emit with_robot].
  rewrite !slept_app. unfold playback. rewrite slept_app.
  rewrite slept_with_delays. cbn [slept]. rewrite slept_home_position.
  rewrite sorted_length, frame_index_reversal. lia.
Qed.

Lemma playback_sleeps_per_frame_witness :
  files stocked "poses/dance.csv"
  = Some [row 5 1 140%float; row 0 1 100%float; row 0 2 50%float; row 0 11 7%float]
  /\ parse_rows [row 5 1 140%float; row 0 1 100%float; row 0 2 50%float; row 0 11 7%float]
     = Some dance_records
  /\ slept (trace (snd (_play_sequence_thread stocked "poses/dance.csv" "dance"
                          (ready stocked))))
     = slept (trace (ready stocked))
       + 500 * Z.max 1 (Z.of_nat (List.length (distinct (map frame_index dance_records)))).
Proof.
  split; [reflexivity|]. split; [reflexivity|].
  exact (@playback_sleeps_per_frame stocked (ready stocked) "poses/dance.csv" "dance"
           _ dance_records eq_refl eq_refl).
Defined.

(** ** Rules for what a computation keeps or adds *)

#[global] Instance keeps_preorder (X : Type) (f : state -> X) : PreOrder (keeps f).
Proof.
  split.
  - intros s. reflexivity.
  - intros a b c Hab Hbc. unfold keeps in *. congruence.
Qed.

#[global] Instance adds_preorder (P : event -> Prop) : PreOrder (adds P).
Proof.
  split.
  - intros s. exists []. split; [now rewrite app_nil_r | constructor].
  - intros a b c [e1 [H1 F1]] [e2 [H2 F2]]. exists (e1 ++ e2).
    split; [now rewrite H2, H1, app_assoc | now apply Forall_app].
Qed.

Section Respects.

Variable R : state -> state -> Prop.
Context {R_preorder : PreOrder R}.

Lemma respects_ret (A : Type) (a : A) : respects R (ret a).
Proof. intros s. reflexivity. Qed.

Lemma respects_raise (A : Type) (x : exn) : respects R (@raise A x).
Proof. intros s. reflexivity. Qed.

Lemma respects_get : respects R get.
Proof. intros s. reflexivity. Qed.

Lemma respects_lift (A : Type) (r : result A) : respects R (lift r).
Proof. intros s. reflexivity. Qed.

Lemma respects_modify (f : state -> state) :
  (forall s, R s (f s)) -> respects R (modify f).
Proof. intros H s. apply H. Qed.

Lemma respects_call (E : env) (e : event) :
  (forall s, R s (emit [e] s)) -> respects R (call E e).
Proof. intros H s. apply H. Qed.

Lemma respects_bind (A B : Type) (m : M A) (k : A -> M B) :
  respects R m -> (forall a, respects R (k a)) -> respects R (bind m k).
Proof.
  intros Hm Hk s. unfold bind. specialize (Hm s).
  destruct (m s) as [[a|x] s1]; simpl in Hm; [|exact Hm].
  etransitivity; [exact Hm | apply Hk].
Qed.

Lemma respects_try_except (A : Type) (m : M A) (h : exn -> M A) :
  respects R m -> (forall x, respects R (h x)) -> respects R (try_except m h).
Proof.
  intros Hm Hh s. unfold try_except. specialize (Hm s).
  destruct (m s) as [[a|x] s1]; simpl in Hm; [exact Hm|].
  etransitivity; [exact Hm | apply Hh].
Qed.

Lemma respects_try_finally (A : Type) (m : M A) (f : M unit) :
  respects R m -> respects R f -> respects R (try_finally m f).
Proof.
  intros Hm Hf s. unfold try_finally. specialize (Hm s).
  destruct (m s) as [r s1]; simpl in Hm. specialize (Hf s1).
  destruct (f s1) as [[[]|x] s2]; simpl in Hf; etransitivity; eassumption.
Qed.

Lemma respects_for_each (A : Type) (l : list A) (f : A -> M unit) :
  (forall x, respects R (f x)) -> respects R (for_each l f).
Proof.
  intros Hf. induction l as [|x l IH]; simpl.
  - apply respects_ret.
  - apply respects_bind; [apply Hf | intros _; exact IH].
Qed.

Lemma respects_repeat_n (n : nat) (m : M unit) :
  respects R m -> respects R (repeat_n n m).
Proof.
  intros Hm. induction n as [|n IH]; simpl.
  - apply respects_ret.
  - apply respects_bind; [exact Hm | intros _; exact IH].
Qed.

End Respects.

Arguments respects_ret {R R_preorder} [A] a.
Arguments respects_raise {R R_preorder} [A] x.
Arguments respects_get {R R_preorder}.
Arguments respects_lift {R R_preorder} [A] r.
Arguments respects_bind {R R_preorder} [A B m] k _ _.
Arguments respects_try_except {R R_preorder} [A m] h _ _.
Arguments respects_try_finally {R R_preorder} [A m f] _ _.
Arguments respects_for_each {R R_preorder} [A] l [f] _.
Arguments respects_repeat_n {R R_preorder} n [m] _.

(** Decomposes a computation; [side] proves that a primitive respects
    the relation. *)
Ltac respecting side :=
  repeat first
    [ apply respects_ret | apply respects_raise | apply respects_get
    | apply respects_lift
    | apply respects_bind; [|intros ?]
    | apply respects_try_except; [|intros ?]
    | apply respects_try_finally
    | apply respects_for_each; intros ?
    | apply respects_repeat_n
    | apply respects_call; intros ?; solve [side]
    | apply respects_modify; intros ?; solve [side]
    | match goal with
      | |- respects _ (if ?b then _ else _) => destruct b
      | |- respects _ (let '(_, _) := ?p in _) => destruct p
      | |- respects _ (match ?o with _ => _ end) => destruct o
      end ].

Section Keeps.

Variable X : Type.
Variable f : state -> X.

Hypothesis f_emit : forall evs s, f (emit evs s) = f s.
Hypothesis f_threads : forall ts s, f (with_threads ts s) = f s.
Hypothesis f_moving :
  forall b s, f (with_robot (set_is_moving b (robot s)) s) = f s.
Hypothesis f_action :
  forall a s, f (with_robot (set_current_action a (robot s)) s) = f s.

Ltac kept :=
  unfold keeps; cbv beta;
  rewrite ?f_emit, ?f_threads, ?f_moving, ?f_action; reflexivity.

Lemma keeps_body (E : env) (k : kind) : respects (keeps f) (body E k).
Proof.
  intros s. destruct (only_emits_body E k s) as [evs [-> _]]. apply f_emit.
Qed.

Lemma keeps_play_sequence (E : env) (name : string) :
  respects (keeps f) (play_sequence E name).
Proof. unfold play_sequence, start_thread. respecting kept. Qed.

Lemma keeps_step_task (E : env) (t : task) : respects (keeps f) (step_task E t).
Proof.
  destruct t; cbn [step_task].
  - apply respects_bind; [apply keeps_play_sequence | intros ok].
    respecting kept.
  - unfold not_ready. respecting kept.
  - unfold assign_is_moving. respecting kept.
  - unfold assign_current_action. respecting kept.
  - apply respects_bind; [|intros ?; apply respects_ret].
    apply respects_try_except; [apply keeps_body | intros ?; apply respects_ret].
  - unfold assign_is_moving. respecting kept.
  - unfold assign_current_action. respecting kept.
  - apply respects_ret.
Qed.

Lemma keeps_run_thread (E : env) (i : nat) : respects (keeps f) (run_thread E i).
Proof.
  unfold run_thread. apply respects_bind; [apply respects_get | intros s].
  destruct (nth_error (threads s) i) as [t|]; [|apply respects_ret].
  apply respects_bind.
  - apply respects_try_except; [apply keeps_step_task | intros ?; apply respects_ret].
  - intros t'. respecting kept.
Qed.

Lemma keeps_emergency_stop (E : env) : respects (keeps f) (emergency_stop E).
Proof. unfold emergency_stop, assign_is_moving, sleep, pass. respecting kept. Qed.

Lemma keeps_trigger (action : string) :
  respects (keeps f) (trigger_robot_action action).
Proof. unfold trigger_robot_action, start_thread. respecting kept. Qed.

Lemma keeps_broadcast (E : env) (payload : pyval) :
  respects (keeps f) (broadcast E payload).
Proof. unfold broadcast, pass. respecting kept. Qed.

Lemma keeps_send_status (E : env) (c : nat) (now : Z) :
  respects (keeps f) (send_status E c now).
Proof. unfold send_status. respecting kept. Qed.

Lemma keeps_handle_test_action (E : env) (c : nat) (data : message) :
  respects (keeps f) (handle_test_action E c data).
Proof.
  unfold handle_test_action.
  apply respects_bind; [apply respects_lift | intros _].
  apply respects_bind; [|intros r; respecting kept].
  destruct (String.eqb (action_of data) "stop").
  - apply respects_bind; [apply keeps_emergency_stop | intros ?; apply respects_ret].
  - apply respects_bind; [apply keeps_trigger | intros ok].
    destruct ok; apply respects_ret.
Qed.

Lemma keeps_handle_smile (E : env) (c : nat) (data : message) (now : Z) :
  (forall st s, f (with_stats st s) = f s) ->
  respects (keeps f) (handle_smile E c data now).
Proof.
  intros f_stats. unfold handle_smile, add_total_smiles, assign_last_smile.
  apply respects_bind; [respecting ltac:(apply f_stats) | intros _].
  apply respects_bind; [respecting ltac:(apply f_stats) | intros _].
  apply respects_bind; [apply respects_lift | intros _].
  apply respects_bind; [apply respects_lift | intros _].
  apply respects_bind; [apply respects_get | intros s].
  apply respects_bind; [|intros r; apply keeps_broadcast].
  destruct (negb (is_moving (robot s))); [|apply respects_ret].
  apply respects_bind; [apply keeps_trigger | intros ok].
  destruct ok; [|apply respects_ret].
  unfold add_total_movements.
  apply respects_bind; [respecting ltac:(apply f_stats) | intros _].
  respecting kept.
Qed.

Lemma keeps_process_message (E : env) (c : nat) (raw : inbound) (now : Z) :
  (is_smile (Receive c raw now) = true -> forall st s, f (with_stats st s) = f s) ->
  respects (keeps f) (process_message E c raw now).
Proof.
  intros f_stats. unfold process_message. apply respects_try_except.
  - destruct raw as [| |data]; [apply respects_raise | apply respects_raise |].
    cbv zeta. simpl in f_stats.
    apply respects_bind; [apply respects_lift | intros _].
    destruct (command_is (msg_command data) "smile_detected");
      [apply keeps_handle_smile; now apply f_stats|].
    destruct (command_is (msg_command data) "test_action");
      [apply keeps_handle_test_action|].
    destruct (command_is (msg_command data) "get_status");
      [apply keeps_send_status|].
    respecting kept.
  - intros x. destruct x; respecting kept.
Qed.

Lemma keeps_set_home_position (E : env) : respects (keeps f) (set_home_position E).
Proof. unfold set_home_position, pass. respecting kept. Qed.

Lemma keeps_connect (E : env) :
  (forall r s, f (with_robot r s) = f s) -> respects (keeps f) (connect E).
Proof.
  intros f_robot. unfold connect, add_servo, assign_connected, pass.
  apply respects_try_except.
  - apply respects_bind; [respecting kept | intros _].
    apply respects_bind; [respecting ltac:(first [apply f_robot | kept]) | intros _].
    apply respects_bind; [apply respects_get | intros s1].
    apply respects_bind; [respecting ltac:(apply f_robot) | intros _].
    apply respects_bind; [apply respects_get | intros s2].
    apply respects_bind; [|intros _; respecting kept].
    destruct (connected (robot s2)); [apply keeps_set_home_position | apply respects_ret].
  - intros x. respecting ltac:(apply f_robot).
Qed.

Lemma keeps_disconnect (E : env) :
  (forall r s, f (with_robot r s) = f s) -> respects (keeps f) (disconnect E).
Proof.
  intros f_robot. unfold disconnect, assign_connected, pass.
  respecting ltac:(first [apply f_robot | kept]).
Qed.

Hypothesis f_clients : forall cs s, f (with_clients cs s) = f s.

Lemma keeps_remove_client (c : nat) : respects (keeps f) (remove_client c).
Proof.
  unfold remove_client. apply respects_modify. intros s.
  apply (f_clients (filter (fun c' => negb (Nat.eqb c c')) (clients s)) s).
Qed.

Lemma keeps_accept_client (E : env) (c : nat) (now : Z) :
  respects (keeps f) (accept_client E c now).
Proof.
  unfold accept_client. apply respects_bind; [|intros _; apply keeps_send_status].
  apply respects_modify. intros s.
  apply (f_clients (if existsb (Nat.eqb c) (clients s) then clients s
                    else clients s ++ [c]) s).
Qed.

(** What a step of the machine keeps: the count of a smile may change
    what depends on the statistics, and connecting or disconnecting
    what depends on the engine. *)
Lemma keeps_do_label (E : env) (l : label) :
  (is_smile l = true -> forall st s, f (with_stats st s) = f s) ->
  (l = Connect \/ l = Disconnect -> forall r s, f (with_robot r s) = f s) ->
  respects (keeps f) (do_label E l).
Proof.
  intros f_stats f_robot. destruct l as [i|c now|c raw now|c| |name|m| |]; cbn [do_label].
  - apply keeps_run_thread.
  - apply respects_try_except; [apply keeps_accept_client | intros ?; apply respects_ret].
  - unfold receive. apply respects_try_except;
      [apply keeps_process_message; exact f_stats | intros ?; apply keeps_remove_client].
  - apply keeps_remove_client.
  - apply respects_bind; [apply keeps_connect; apply f_robot; now left |].
    intros ?; apply respects_ret.
  - apply respects_bind; [apply keeps_play_sequence | intros ?; apply respects_ret].
  - unfold start_thread. respecting kept.
  - apply keeps_emergency_stop.
  - apply keeps_disconnect; apply f_robot; now right.
Qed.

End Keeps.

(** ** Connecting *)

Lemma try_except_run (A : Type) (m : M A) (h : exn -> M A) (s : state) :
  try_except m h s
  = match m s with
    | (Ok a, s') => (Ok a, s')
    | (Raise x, s') => h x s'
    end.
Proof. reflexivity. Qed.

Lemma call_run (E : env) (e : event) (s : state) :
  call E e s
  = (if bus E (trace s) e then Raise DeviceError else Ok tt, emit [e] s).
Proof. reflexivity. Qed.

Lemma bind_run (A B : Type) (m : M A) (k : A -> M B) (s : state) :
  bind m k s
  = match m s with
    | (Ok a, s') => k a s'
    | (Raise x, s') => (Raise x, s')
    end.
Proof. reflexivity. Qed.

Lemma lift_run (A : Type) (r : result A) (s : state) : lift r s = (r, s).
Proof. reflexivity. Qed.

Lemma lift_bind_run (A B : Type) (r : result A) (k : A -> M B) (s : state) :
  bind (lift r) k s
  = match r with
    | Ok a => k a s
    | Raise x => (Raise x, s)
    end.
Proof. reflexivity. Qed.

Lemma command_is_eq (command : option string) (literal : string) :
  command_is command literal = true -> command = Some literal.
Proof.
  destruct command as [c|]; [|discriminate]. cbn [command_is].
  intros H. apply String.eqb_eq in H. now subst.
Qed.

Lemma registers_none (s : state) : registers [] s s.
Proof.
  repeat split; auto.
  - reflexivity.
  - apply incl_refl.
  - rewrite app_nil_r. apply incl_refl.
Qed.

Lemma registers_then (sid : Z) (l : list Z) (s s1 s2 : state) :
  registers [sid] s s1 -> registers l s1 s2 -> registers (sid :: l) s s2.
Proof.
  intros [Hr [Ha [Hi [Hj Hn]]]] [Hr' [Ha' [Hi' [Hj' Hn']]]]. repeat split.
  - congruence.
  - etransitivity; eassumption.
  - eapply incl_tran; eassumption.
  - intros x Hx. apply Hj' in Hx. apply in_app_or in Hx. destruct Hx as [Hx|Hx].
    + apply Hj in Hx. apply in_app_or in Hx. destruct Hx as [Hx|[<-|[]]].
      * apply in_or_app. now left.
      * apply in_or_app. right. now left.
    + apply in_or_app. right. now right.
  - auto.
Qed.

Lemma register_one (E : env) (sid : Z) (s : state) :
  fst (try_except
         (call E (NewServo sid) ;; call E (EnableTorque sid) ;; add_servo sid)
         pass s) = Ok tt
  /\ registers [sid] s
       (snd (try_except
               (call E (NewServo sid) ;; call E (EnableTorque sid) ;; add_servo sid)
               pass s)).
Proof.
  unfold try_except, bind, call, add_servo, modify, pass, ret.
  destruct (bus E (trace s) (NewServo sid)); cbn [fst snd].
  - split; [reflexivity|]. repeat split; auto.
    + exists [NewServo sid]. split; [reflexivity | repeat constructor].
    + apply incl_refl.
    + apply incl_appl, incl_refl.
  - destruct (bus E (trace (emit [NewServo sid] s)) (EnableTorque sid)); cbn [fst snd].
    + split; [reflexivity|]. repeat split; auto.
      * exists [NewServo sid; EnableTorque sid]. cbn. rewrite <- app_assoc.
        split; [reflexivity | repeat constructor].
      * apply incl_refl.
      * apply incl_appl, incl_refl.
    + split; [reflexivity|]. cbn [robot emit with_robot set_servos servos].
      repeat split.
      * exists [NewServo sid; EnableTorque sid]. cbn. rewrite <- app_assoc.
        split; [reflexivity | repeat constructor].
      * destruct (mem sid (servos (robot s))); [apply incl_refl|].
        apply incl_appl, incl_refl.
      * destruct (mem sid (servos (robot s))); [apply incl_appl|]; apply incl_refl.
      * intros Hn. destruct (mem sid (servos (robot s))) eqn:Hm; [exact Hn|].
        apply NoDup_app; [exact Hn | repeat constructor; intros [] |].
        intros x Hx [<-|[]]. apply mem_In in Hx. congruence.
Qed.

Lemma register_all (E : env) (l : list Z) (s : state) :
  fst (for_each l
         (fun sid =>
            try_except
              (call E (NewServo sid) ;; call E (EnableTorque sid) ;; add_servo sid)
              pass) s) = Ok tt
  /\ registers l s
       (snd (for_each l
               (fun sid =>
                  try_except
                    (call E (NewServo sid) ;; call E (EnableTorque sid) ;; add_servo sid)
                    pass) s)).
Proof.
  revert s; induction l as [|sid l IH]; intros s.
  - split; [reflexivity | apply registers_none].
  - cbn [for_each]. rewrite bind_run.
    destruct (register_one E sid s) as [Hok Hreg].
    destruct (try_except
                (call E (NewServo sid) ;; call E (EnableTorque sid) ;; add_servo sid)
                pass s) as [[[]|x] s1]; [|discriminate].
    cbn [snd] in Hreg. destruct (IH s1) as [Hok' Hreg'].
    split; [exact Hok'|]. eapply registers_then; eassumption.
Qed.

(** The two outcomes of [connect]. *)
Lemma connect_cases (E : env) (s : state) :
  (bus E (trace s) (Initialize ROBOT_PORT) = true
   /\ connect E s
      = (Ok false,
         with_robot (set_connected false (robot s)) (emit [Initialize ROBOT_PORT] s)))
  \/ (bus E (trace s) (Initialize ROBOT_PORT) = false
      /\ exists s1,
           registers Config.ALL_SERVOS (emit [Initialize ROBOT_PORT] s) s1
           /\ connect E s
              = (Ok (0 <? Z.of_nat (List.length (servos (robot s1)))),
                 emit (home_position
                         (set_connected (0 <? Z.of_nat (List.length (servos (robot s1))))
                            (robot s1)))
                   (with_robot
                      (set_connected (0 <? Z.of_nat (List.length (servos (robot s1))))
                         (robot s1)) s1))).
Proof.
  unfold connect. rewrite try_except_run, bind_run, call_run.
  destruct (bus E (trace s) (Initialize ROBOT_PORT)) eqn:Hi.
  - left. split; reflexivity.
  - right. split; [reflexivity|].
    destruct (register_all E Config.ALL_SERVOS (emit [Initialize ROBOT_PORT] s))
      as [Hok Hreg].
    rewrite bind_run.
    destruct (for_each Config.ALL_SERVOS _ (emit [Initialize ROBOT_PORT] s))
      as [[[]|x] s1]; [|discriminate].
    cbn [snd] in Hreg. exists s1. split; [exact Hreg|].
    rewrite bind_run. unfold get at 1.
    rewrite bind_run. unfold assign_connected at 1, modify.
    rewrite bind_run. unfold get at 1.
    cbn [robot with_robot connected set_connected].
    unfold home_position. cbn [connected set_connected servos].
    destruct (0 <? Z.of_nat (List.length (servos (robot s1)))) eqn:Hb.
    + rewrite bind_run, set_home_position_sweeps by reflexivity.
      reflexivity.
    + rewrite bind_run. unfold ret at 1. rewrite bind_run. unfold get, ret.
      cbn [robot with_robot connected set_connected]. now rewrite emit_nil.
Qed.

(** When the bus cannot be initialised, [connect] returns [False]
    without raising, clears [connected], and talks to no actuator: the
    registered actuators and everything else stay as they were. *)
Theorem connect_without_bus (E : env) (s : state) :
  bus E (trace s) (Initialize ROBOT_PORT) = true ->
  connect E s
  = (Ok false,
     with_robot (set_connected false (robot s)) (emit [Initialize ROBOT_PORT] s)).
Proof.
  intros Hi. destruct (connect_cases E s) as [[_ H] | [H _]]; [exact H | congruence].
Qed.

Lemma connect_without_bus_witness :
  bus dead (trace (initial 0)) (Initialize ROBOT_PORT) = true
  /\ connect dead (initial 0)
     = (Ok false,
        with_robot (set_connected false (robot (initial 0)))
          (emit [Initialize ROBOT_PORT] (initial 0))).
Proof.
  split; [reflexivity | exact (connect_without_bus dead (initial 0) eq_refl)].
Defined.

(** When the bus is initialised, [connect] returns without raising the
    value it leaves in [connected], which is true exactly when some
    actuator is registered afterwards. It forgets no actuator that was
    registered before, adds only ids of [ALL_SERVOS], none twice, and
    leaves the flags, the clients, the statistics and the threads
    alone. When it returns [True] the last thing it does is to send
    every registered actuator home. *)
Theorem connect_registers (E : env) (s : state) :
  bus E (trace s) (Initialize ROBOT_PORT) = false ->
  fst (connect E s) = Ok (connected (robot (snd (connect E s))))
  /\ (connected (robot (snd (connect E s))) = true
      <-> servos (robot (snd (connect E s))) <> [])
  /\ incl (servos (robot s)) (servos (robot (snd (connect E s))))
  /\ incl (servos (robot (snd (connect E s)))) (servos (robot s) ++ Config.ALL_SERVOS)
  /\ (NoDup (servos (robot s)) -> NoDup (servos (robot (snd (connect E s)))))
  /\ is_moving (robot (snd (connect E s))) = is_moving (robot s)
  /\ current_action (robot (snd (connect E s))) = current_action (robot s)
  /\ clients (snd (connect E s)) = clients s
  /\ stats (snd (connect E s)) = stats s
  /\ threads (snd (connect E s)) = threads s
  /\ (connected (robot (snd (connect E s))) = true ->
      exists pre,
        trace (snd (connect E s))
        = trace s ++ pre ++ home_sweep (servos (robot (snd (connect E s))))).
Proof.
  intros Hi. destruct (connect_cases E s) as [[H _] | [_ [s1 [Hreg Hc]]]]; [congruence|].
  rewrite Hc. cbn [fst snd robot emit with_robot connected set_connected servos].
  destruct Hreg as [Hrest [[evs [Ht _]] [Hin [Hout Hnd]]]].
  unfold rest in Hrest. cbn [robot emit] in Hrest, Hin, Hout, Hnd.
  injection Hrest as Hm Ha _ Hcl Hst Hth.
  split; [reflexivity|]. split.
  { destruct (servos (robot s1)) as [|x l].
    - split; [discriminate | congruence].
    - split; [discriminate|]. intros _. apply Z.ltb_lt.
      cbn [List.length]. lia. }
  repeat split; auto.
  intros Hb. unfold home_position. cbn [connected set_connected servos]. rewrite Hb.
  exists ([Initialize ROBOT_PORT] ++ evs). cbn [trace emit with_robot].
  rewrite Ht. cbn [trace emit]. now rewrite <- !app_assoc.
Qed.

Lemma connect_registers_witness :
  bus lone (trace (initial 0)) (Initialize ROBOT_PORT) = false
  /\ fst (connect lone (initial 0))
     = Ok (connected (robot (snd (connect lone (initial 0)))))
  /\ (connected (robot (snd (connect lone (initial 0)))) = true
      <-> servos (robot (snd (connect lone (initial 0)))) <> []).
Proof.
  pose proof (connect_registers lone (initial 0) eq_refl) as [H1 [H2 _]].
  split; [reflexivity|]. split; [exact H1 | exact H2].
Defined.

(** ** Disconnecting *)

Lemma disconnect_state (E : env) (s : state) :
  disconnect E s
  = (Ok tt,
     with_robot (set_connected false (robot s))
       (emit (map DisableTorque (servos (robot s)) ++ [CloseBus]) s)).
Proof.
  unfold disconnect. rewrite bind_run. unfold get at 1.
  rewrite bind_run, sweep_swallows.
  rewrite bind_run, try_except_run, call_run.
  destruct (bus E (trace (emit (map DisableTorque (servos (robot s))) s)) CloseBus);
    unfold pass, ret, assign_connected, modify; rewrite emit_emit; reflexivity.
Qed.

(** [disconnect] never raises: it asks every registered actuator to
    disable its torque, closes the bus and clears [connected], whatever
    the bus answers; the registered actuators stay registered. From
    then on every request for a motion is refused without effect:
    [play_sequence] and [trigger_robot_action] return [False], the
    built-in motions return at their guard, and [set_home_position]
    sends nothing. *)
Theorem disconnect_then_refuses (E : env) (s : state) :
  fst (disconnect E s) = Ok tt
  /\ trace (snd (disconnect E s))
     = trace s ++ map DisableTorque (servos (robot s)) ++ [CloseBus]
  /\ connected (robot (snd (disconnect E s))) = false
  /\ servos (robot (snd (disconnect E s))) = servos (robot s)
  /\ (forall name,
        play_sequence E name (snd (disconnect E s)) = (Ok false, snd (disconnect E s)))
  /\ (forall action,
        trigger_robot_action action (snd (disconnect E s))
        = (Ok false, snd (disconnect E s)))
  /\ (forall m, simple E m (snd (disconnect E s)) = (Ok tt, snd (disconnect E s)))
  /\ set_home_position E (snd (disconnect E s)) = (Ok tt, snd (disconnect E s)).
Proof.
  rewrite disconnect_state. cbn [fst snd].
  split; [reflexivity|]. split; [reflexivity|]. split; [reflexivity|].
  split; [reflexivity|]. split; [|split; [|split]].
  - intros name. reflexivity.
  - intros action. reflexivity.
  - intros m. apply simple_not_ready. now left.
  - reflexivity.
Qed.

(** ** The dance and the bus *)

Lemma dance_round_events (E : env) (s : state) :
  for_each dance_positions (fun pos => play_frame E pos ;; sleep 400) s
  = (Ok tt, emit (dance_round (servos (robot s))) s).
Proof.
  unfold dance_round.
  generalize dance_positions as l. intros l. revert s.
  induction l as [|pos l IH]; intros s; cbn [for_each map List.concat].
  - unfold ret. now rewrite emit_nil.
  - rewrite bind_run, bind_run, play_frame_moves.
    unfold sleep, modify. rewrite IH, !emit_emit. cbn [robot emit].
    now rewrite <- !app_assoc.
Qed.

Lemma dance_body_events (E : env) (s : state) :
  dance_body E s = (Ok tt, emit (dance_events (robot s)) s).
Proof.
  unfold dance_body, dance_events. cbn [repeat_n].
  rewrite bind_run, bind_run, dance_round_events.
  rewrite bind_run, dance_round_events. unfold ret at 1.
  rewrite set_home_position_events, !emit_emit. cbn [robot emit].
  rewrite <- ?app_assoc. reflexivity.
Qed.

(** Every move of the dance is in a [try] of its own: on a connected,
    idle engine [simple_dance] returns normally and does the same
    things whatever the bus answers - two rounds of its four positions
    on the connected actuators among 1, 2 and 3, 400 ms after each
    position, then the home position - between setting and clearing
    the flags. *)
Theorem dance_never_cut_short (E : env) (s : state) :
  connected (robot s) = true ->
  is_moving (robot s) = false ->
  simple_dance E s
  = (Ok tt, released (emit (dance_events (robot s)) (claimed "dance" s))).
Proof.
  intros Hc Hm. change (simple_dance E s) with (simple E Dance s).
  rewrite (simple_runs_body E Dance s Hc Hm). cbn [body motion_name].
  now rewrite dance_body_events.
Qed.

Lemma dance_never_cut_short_witness :
  connected (robot (exec faulty [Connect] (initial 0))) = true
  /\ is_moving (robot (exec faulty [Connect] (initial 0))) = false
  /\ simple_dance faulty (exec faulty [Connect] (initial 0))
     = (Ok tt,
        released (emit (dance_events (robot (exec faulty [Connect] (initial 0))))
                    (claimed "dance" (exec faulty [Connect] (initial 0))))).
Proof.
  split; [reflexivity|]. split; [reflexivity|].
  exact (dance_never_cut_short faulty (exec faulty [Connect] (initial 0))
           eq_refl eq_refl).
Defined.

(** ** A motion accepted after a stop *)

Lemma emergency_stop_state (E : env) (s : state) :
  exists evs,
    snd (emergency_stop E s) = emit evs (with_robot (set_is_moving false (robot s)) s).
Proof.
  unfold emergency_stop.
  rewrite bind_run. unfold assign_is_moving at 1, modify.
  rewrite bind_run. unfold get at 1.
  rewrite bind_run, sweep_swallows.
  rewrite bind_run. unfold sleep at 1, modify.
  rewrite bind_run. unfold get at 1.
  rewrite sweep_swallows, !emit_emit. cbn [snd].
  eexists. reflexivity.
Qed.

(** [emergency_stop] opens the engine again at once: on a connected
    engine, a [play_sequence] of a stored name right after it is
    accepted and starts its thread, even when a motion was playing when
    the stop was requested - that motion's thread is not stopped, and
    the count of threads in flight is left as it was. *)
Theorem stop_then_play_is_accepted (E : env) (s : state) (name : string)
    (rows : list csv_row) :
  connected (robot s) = true ->
  files E (seq_file_of name) = Some rows ->
  play_sequence E name (snd (emergency_stop E s))
  = (Ok true,
     with_threads
       (threads s ++ [T_set_moving (K_play (seq_file_of name) name)])
       (snd (emergency_stop E s)))
  /\ filter in_flight (threads (snd (emergency_stop E s))) = filter in_flight (threads s).
Proof.
  intros Hc Hf. destruct (emergency_stop_state E s) as [evs Hs]. rewrite Hs.
  split; [|reflexivity].
  unfold play_sequence. rewrite bind_run. unfold get at 1.
  cbn [robot emit with_robot connected is_moving set_is_moving].
  rewrite Hc, Hf. reflexivity.
Qed.

Lemma stop_then_play_is_accepted_witness :
  connected (robot (exec stocked dance_playing (initial 0))) = true
  /\ is_moving (robot (exec stocked dance_playing (initial 0))) = true
  /\ files stocked (seq_file_of "wave") = Some [row 0 1 100%float; row 1 1 140%float]
  /\ fst (play_sequence stocked "wave"
            (snd (emergency_stop stocked (exec stocked dance_playing (initial 0)))))
     = Ok true.
Proof.
  split; [reflexivity|]. split; [reflexivity|]. split; [reflexivity|].
  exact (f_equal fst
           (proj1 (@stop_then_play_is_accepted stocked
                     (exec stocked dance_playing (initial 0)) "wave" _
                     eq_refl eq_refl))).
Defined.

(** ** The file of a sequence *)

(** The table [ROBOT_SEQUENCES] changes nothing: for every name, listed
    or not, [play_sequence] looks for the file [<name>.csv], joined to
    the directory [poses]. *)
Theorem sequence_file_is_name_csv (name : string) :
  seq_file_of name = path_join "poses" (name ++ ".csv")%string.
Proof.
  unfold seq_file_of, ROBOT_SEQUENCES. cbn [str_get].
  repeat match goal with
         | |- context [String.eqb name ?k] =>
             let H := fresh "H" in
             destruct (String.eqb name k) eqn:H;
             [apply String.eqb_eq in H; subst name; reflexivity|]
         end.
  reflexivity.
Qed.

(** ** The counters of the server *)

Lemma stats_kept (E : env) (l : label) (s : state) :
  is_smile l = false -> stats (snd (do_label E l s)) = stats s.
Proof.
  intros Hl.
  apply (@keeps_do_label _ stats); try reflexivity.
  intros H. congruence.
Qed.

Lemma smile_stats (E : env) (c : nat) (data : message) (now : Z) (s : state) :
  command_is (msg_command data) "smile_detected" = true ->
  exists moved : bool,
    stats (snd (receive E c (Decoded data) now s))
    = {| total_smiles := total_smiles (stats s) + 1;
         total_movements := total_movements (stats s) + (if moved then 1 else 0);
         start_time := start_time (stats s);
         last_smile := Some now |}.
Proof.
  intros Hc. unfold receive, process_message. rewrite Hc.
  rewrite (command_is_eq _ _ Hc). cbv zeta.
  rewrite !try_except_run, bind_run.
  change (lift (print "smile_detected") s) with (@Ok unit tt, s). cbv iota beta.
  assert (Hx : forall x,
             exists moved : bool,
               stats (snd (let (r, s') :=
                             call E (Send c (PDict [("error", PErrorText x)]))
                               (with_stats
                                  {| total_smiles := total_smiles (stats s) + 1;
                                     total_movements := total_movements (stats s);
                                     start_time := start_time (stats s);
                                     last_smile := Some now |} s) in
                           match r with
                           | Ok a => (Ok a, s')
                           | Raise x0 => remove_client c s'
                           end))
               = {| total_smiles := total_smiles (stats s) + 1;
                    total_movements := total_movements (stats s) + (if moved then 1 else 0);
                    start_time := start_time (stats s);
                    last_smile := Some now |}).
  { intros x. exists false. rewrite Z.add_0_r, call_run.
    match goal with
    | |- context [bus E ?h ?e] => destruct (bus E h e)
    end; reflexivity. }
  destruct (float_format (score_of data)) as [[]|x] eqn:Hf.
  - destruct (has_surrogate (action_of data)) eqn:Hp.
    + rewrite (handle_smile_unprinted E c data now s Hf Hp). apply Hx.
    + assert (Hq : print (action_of data) = Ok tt) by (unfold print; now rewrite Hp).
      rewrite (handle_smile_formatted E c data now s Hf Hq).
      destruct (negb (is_moving (robot s)) && connected (robot s));
        [exists true | exists false]; cbn [snd stats emit with_threads with_stats];
        [reflexivity | now rewrite Z.add_0_r].
  - rewrite (handle_smile_unformatted E c data now s Hf).
    destruct x; try apply Hx.
    exists false. rewrite Z.add_0_r, call_run.
    match goal with
    | |- context [bus E ?h ?e] => destruct (bus E h e)
    end; reflexivity.
Qed.

(** Whatever the threads, the clients and the bus do, in any order:
    [total_smiles] has grown by the number of [smile_detected] messages
    received, [total_movements] has grown by at most that number and
    never decreases, and [start_time] is the one of construction. *)
Theorem smiles_are_counted (E : env) (ls : list label) (s : state) :
  total_smiles (stats (exec E ls s)) = total_smiles (stats s) + count_smiles ls
  /\ start_time (stats (exec E ls s)) = start_time (stats s)
  /\ total_movements (stats s) <= total_movements (stats (exec E ls s))
     <= total_movements (stats s) + count_smiles ls.
Proof.
  revert s. induction ls as [|l ls IH]; intros s.
  - unfold count_smiles. cbn. repeat split; lia.
  - cbn [exec]. destruct (IH (snd (do_label E l s))) as [H1 [H2 H3]].
    assert (Hn : count_smiles (l :: ls) = smiles_of l + count_smiles ls).
    { unfold count_smiles, smiles_of. cbn [filter].
      destruct (is_smile l); cbn [List.length]; lia. }
    rewrite Hn, H1, H2. unfold smiles_of.
    destruct (is_smile l) eqn:Hl.
    + destruct l as [ | |c raw now| | | | | | ]; try discriminate.
      destruct raw as [| |data]; try discriminate. cbn [is_smile] in Hl.
      cbn [do_label] in *.
      destruct (smile_stats E c data now s Hl) as [moved Hs].
      rewrite Hs in *. cbn [total_smiles total_movements start_time] in *.
      destruct moved; repeat split; lia.
    + rewrite (stats_kept E l s Hl) in *. repeat split; lia.
Qed.

(** ** The registered actuators *)

Lemma wiring_kept (E : env) (l : label) (s : state) :
  l <> Connect -> l <> Disconnect -> wiring (snd (do_label E l s)) = wiring s.
Proof.
  intros H1 H2.
  apply (@keeps_do_label _ wiring); try reflexivity.
  intros [H|H]; contradiction.
Qed.

Lemma wired_wiring (s s' : state) : wiring s' = wiring s -> wired s -> wired s'.
Proof.
  unfold wiring, wired. intros H. injection H as Hs Hc. now rewrite Hs, Hc.
Qed.

Lemma wired_step (E : env) (l : label) (s : state) :
  wired s -> wired (snd (do_label E l s)).
Proof.
  intros Hw.
  destruct l as [i|c now|c raw now|c| |name|m| |];
    try (apply wired_wiring with (s := s); [apply wiring_kept; discriminate | exact Hw]).
  - cbn [do_label]. rewrite bind_run.
    destruct Hw as [Hnd [Hin Hc]].
    destruct (connect_cases E s) as [[_ ->]|[_ [s1 [Hreg ->]]]]; cbn [snd ret].
    + repeat split; [exact Hnd | exact Hin | discriminate].
    + destruct Hreg as [_ [_ [_ [Hsub Hnd1]]]].
      cbn [robot emit] in Hsub, Hnd1.
      repeat split; cbn [robot emit with_robot servos set_connected connected].
      * now apply Hnd1.
      * intros x Hx. apply Hsub in Hx. apply in_app_or in Hx.
        destruct Hx as [Hx|Hx]; [now apply Hin | exact Hx].
      * intros Hb Hnil. rewrite Hnil in Hb. discriminate.
  - cbn [do_label]. rewrite disconnect_state. cbn [snd].
    destruct Hw as [Hnd [Hin Hc]].
    repeat split; [exact Hnd | exact Hin | discriminate].
Qed.

(** In every state the server can reach, whatever the threads, the
    clients and the bus do: the registered actuators are ids of
    [ALL_SERVOS], none twice (so the [servos_connected] of a status is at
    most 10), and [connected] is true only with some actuator
    registered. *)
Theorem registered_actuators_invariant (E : env) (ls : list label) (now : Z) :
  wired (exec E ls (initial now))
  /\ (List.length (servos (robot (exec E ls (initial now)))) <= 10)%nat.
Proof.
  assert (H : forall s, wired s -> wired (exec E ls s)).
  { induction ls as [|l ls IH]; intros s Hs; [exact Hs|].
    cbn [exec]. apply IH, wired_step, Hs. }
  assert (Hw : wired (exec E ls (initial now))).
  { apply H. repeat split; [constructor | intros x [] | discriminate]. }
  split; [exact Hw|].
  destruct Hw as [Hnd [Hin _]].
  change 10%nat with (List.length Config.ALL_SERVOS).
  now apply NoDup_incl_length.
Qed.

(** ** The server without its robot *)

Lemma forallb_list_set (A : Type) (p : A -> bool) (i : nat) (x : A) (l : list A) :
  p x = true -> forallb p l = true -> forallb p (list_set i x l) = true.
Proof.
  intros Hx. revert i. induction l as [|y l IH]; intros i Hl; [now destruct i|].
  cbn [forallb] in Hl. apply andb_true_iff in Hl. destruct Hl as [Hy Hl].
  destruct i; cbn [list_set forallb]; apply andb_true_iff; split; auto.
Qed.

Lemma degraded_emit (evs : list event) (s : state) :
  forallb quiet evs = true -> degraded s -> degraded (emit evs s).
Proof.
  intros He [Hr [Hth [Hst Htr]]]. repeat split; auto.
  cbn [trace emit]. rewrite forallb_app, Htr, He. reflexivity.
Qed.

Lemma quiet_sends (payload : nat -> pyval) (cs : list nat) :
  forallb quiet (map (fun c => Send c (payload c)) cs) = true.
Proof. induction cs as [|c cs IH]; [reflexivity | exact IH]. Qed.

Lemma degraded_call (E : env) (e : event) (s : state) :
  quiet e = true -> degraded s -> degraded (snd (call E e s)).
Proof.
  intros He Hs. rewrite call_run. cbn [snd]. apply degraded_emit; [|exact Hs].
  cbn [forallb]. now rewrite He.
Qed.

Lemma degraded_remove_client (c : nat) (s : state) :
  degraded s -> degraded (snd (remove_client c s)).
Proof. intros Hs. exact Hs. Qed.

Lemma degraded_send_status (E : env) (c : nat) (now : Z) (s : state) :
  degraded s -> degraded (snd (send_status E c now s)).
Proof.
  intros Hs. unfold send_status. rewrite bind_run. unfold get at 1.
  now apply degraded_call.
Qed.

Lemma degraded_play_sequence (E : env) (name : string) (s : state) :
  degraded s -> play_sequence E name s = (Ok false, s).
Proof.
  intros [Hr _]. unfold play_sequence. rewrite bind_run. unfold get at 1.
  rewrite Hr. reflexivity.
Qed.

Lemma degraded_emergency_stop (E : env) (s : state) :
  degraded s ->
  fst (emergency_stop E s) = Ok tt /\ degraded (snd (emergency_stop E s)).
Proof.
  intros [Hr [Hth [Hst Htr]]]. destruct s as [r cl st tr th].
  cbn [robot] in Hr. subst r. split; [reflexivity|].
  cbn. repeat split; auto. cbn [trace emit with_robot] in *.
  rewrite !forallb_app, Htr. reflexivity.
Qed.

Lemma degraded_trigger (action : string) (s : state) :
  degraded s -> trigger_robot_action action s = (Ok false, s).
Proof. intros [Hr _]. apply trigger_disconnected. now rewrite Hr. Qed.

Lemma degraded_handle_test_action (E : env) (c : nat) (data : message) (s : state) :
  degraded s -> degraded (snd (handle_test_action E c data s)).
Proof.
  intros Hs. unfold handle_test_action. rewrite lift_bind_run.
  destruct (print (action_of data)) as [[]|x]; [|exact Hs].
  rewrite bind_run.
  destruct (String.eqb (action_of data) "stop").
  - rewrite bind_run. destruct (degraded_emergency_stop E Hs) as [Hok Hd].
    destruct (emergency_stop E s) as [[[]|x] s1]; [|discriminate].
    unfold ret at 1. now apply degraded_call.
  - rewrite bind_run, (degraded_trigger _ Hs). unfold ret at 1.
    now apply degraded_call.
Qed.

Lemma degraded_handle_smile (E : env) (c : nat) (data : message) (now : Z) (s : state) :
  degraded s -> degraded (snd (handle_smile E c data now s)).
Proof.
  intros Hs. pose proof Hs as [Hr [Hth [Hst Htr]]].
  destruct (float_format (score_of data)) as [[]|x] eqn:Hf.
  - destruct (has_surrogate (action_of data)) eqn:Hp.
    + rewrite (handle_smile_unprinted E c data now s Hf Hp). cbn [snd].
      repeat split; auto.
    + assert (Hq : print (action_of data) = Ok tt) by (unfold print; now rewrite Hp).
      rewrite (handle_smile_formatted E c data now s Hf Hq). cbn [snd].
      rewrite Hr. cbn [connected fresh_robot is_moving negb andb].
      apply degraded_emit; [apply (quiet_sends (fun _ => smile_reply s data))|].
      repeat split; auto.
  - rewrite (handle_smile_unformatted E c data now s Hf). cbn [snd].
    repeat split; auto.
Qed.

Lemma degraded_process_message (E : env) (c : nat) (raw : inbound) (now : Z)
    (s : state) :
  degraded s -> degraded (snd (process_message E c raw now s)).
Proof.
  intros Hs. unfold process_message. rewrite try_except_run.
  assert (Hh : forall x s1, degraded s1 ->
            degraded (snd (match x with
                           | JSONDecodeError =>
                               call E (Send c (PDict [("error", PStr "Invalid JSON")]))
                           | _ => call E (Send c (PDict [("error", PErrorText x)]))
                           end s1))).
  { intros x s1 H1. destruct x; now apply degraded_call. }
  destruct raw as [| |data].
  - exact (Hh JSONDecodeError s Hs).
  - exact (Hh AttributeError s Hs).
  - cbv zeta. rewrite lift_bind_run.
    destruct (print _) as [[]|x]; [|now apply Hh].
    destruct (command_is (msg_command data) "smile_detected").
    { pose proof (degraded_handle_smile E c data now Hs) as H.
      destruct (handle_smile E c data now s) as [[[]|x] s1]; [exact H | now apply Hh]. }
    destruct (command_is (msg_command data) "test_action").
    { pose proof (degraded_handle_test_action E c data Hs) as H.
      destruct (handle_test_action E c data s) as [[[]|x] s1]; [exact H | now apply Hh]. }
    destruct (command_is (msg_command data) "get_status").
    { pose proof (degraded_send_status E c now Hs) as H.
      destruct (send_status E c now s) as [[[]|x] s1]; [exact H | now apply Hh]. }
    match goal with
    | |- context [call E ?e s] =>
        pose proof (@degraded_call E e s eq_refl Hs) as H;
        destruct (call E e s) as [[[]|x] s1]; [exact H | now apply Hh]
    end.
Qed.

Lemma degraded_run_thread (E : env) (i : nat) (s : state) :
  degraded s -> degraded (snd (run_thread E i s)).
Proof.
  intros Hs. pose proof Hs as [Hr [Hth [Hst Htr]]].
  unfold run_thread. rewrite bind_run. unfold get at 1.
  destruct (nth_error (threads s) i) as [t|] eqn:Ht; [|exact Hs].
  assert (Hi : idle_task t = true).
  { apply nth_error_In in Ht. revert Ht. now apply forallb_forall. }
  assert (Hstep : exists t', step_task E t s = (Ok t', s) /\ idle_task t' = true).
  { destruct t; try discriminate; cbn [step_task].
    - rewrite bind_run, (degraded_play_sequence E _ Hs).
      destruct (fallback action); [exists (T_simple m) | exists T_done]; now split.
    - exists T_done. split; [|reflexivity].
      rewrite bind_run. unfold not_ready. rewrite bind_run. unfold get at 1, ret at 1.
      rewrite Hr. reflexivity.
    - exists T_done. now split. }
  destruct Hstep as [t' [Hstep Hi']].
  rewrite bind_run, try_except_run, Hstep. unfold modify. cbn [snd].
  repeat split; auto. cbn [threads with_threads]. now apply forallb_list_set.
Qed.

Lemma degraded_step (E : env) (l : label) (s : state) :
  unplugged E -> degraded s -> degraded (snd (do_label E l s)).
Proof.
  intros HE Hs. pose proof Hs as [Hr [Hth [Hst Htr]]].
  destruct l as [i|c now|c raw now|c| |name|m| |]; cbn [do_label].
  - now apply degraded_run_thread.
  - rewrite try_except_run. unfold accept_client. rewrite bind_run.
    unfold modify at 1.
    match goal with
    | |- context [send_status E c now ?s1] =>
        assert (H1 : degraded s1) by exact Hs;
        pose proof (degraded_send_status E c now H1) as H;
        destruct (send_status E c now s1) as [[[]|x] s2]; exact H
    end.
  - unfold receive. rewrite try_except_run.
    pose proof (degraded_process_message E c raw now Hs) as H.
    destruct (process_message E c raw now s) as [[[]|x] s1]; exact H.
  - exact Hs.
  - rewrite bind_run.
    destruct (connect_cases E s) as [[_ ->]|[Hb _]]; [|now rewrite HE in Hb].
    unfold ret. cbn [snd]. repeat split; auto.
    + cbn [robot with_robot emit]. now rewrite Hr.
    + cbn [trace with_robot emit]. rewrite forallb_app, Htr. reflexivity.
  - rewrite bind_run, (degraded_play_sequence E name Hs). exact Hs.
  - repeat split; auto. cbn [snd start_thread modify threads with_threads].
    rewrite forallb_app, Hth. reflexivity.
  - now apply degraded_emergency_stop.
  - rewrite disconnect_state. cbn [snd]. repeat split; auto.
    + cbn [robot with_robot emit]. now rewrite Hr.
    + cbn [trace with_robot emit]. rewrite Hr. cbn [servos fresh_robot map app].
      rewrite forallb_app, Htr. reflexivity.
Qed.

(** When the bus cannot be initialised the server still answers, and
    leaves the robot alone: in every state it reaches, whatever the
    clients ask and in whatever order the threads run, the engine is as
    constructed (not connected, not moving, no actuator registered), no
    thread has got past a guard, no movement is counted and no command
    has been sent to an actuator. *)
Theorem server_without_robot (E : env) (ls : list label) (now : Z) :
  unplugged E ->
  robot (exec E ls (initial now)) = fresh_robot
  /\ forallb idle_task (threads (exec E ls (initial now))) = true
  /\ total_movements (stats (exec E ls (initial now))) = 0
  /\ forallb quiet (trace (exec E ls (initial now))) = true.
Proof.
  intros HE.
  assert (H : forall s, degraded s -> degraded (exec E ls s)).
  { induction ls as [|l ls IH]; intros s Hs; [exact Hs|].
    cbn [exec]. apply IH, degraded_step; assumption. }
  apply (H (initial now)). repeat split.
Qed.

Lemma server_without_robot_witness :
  unplugged dead
  /\ robot (exec dead [Connect; Accept 1%nat 0; Receive 1%nat (test "wave") 1;
                       Run 0%nat; Run 0%nat; Receive 1%nat (Decoded dance_request) 2;
                       Emergency_stop; Disconnect]
              (initial 0)) = fresh_robot.
Proof.
  split; [intros history; reflexivity|].
  exact (proj1 (@server_without_robot dead
                  [Connect; Accept 1%nat 0; Receive 1%nat (test "wave") 1;
                   Run 0%nat; Run 0%nat; Receive 1%nat (Decoded dance_request) 2;
                   Emergency_stop; Disconnect] 0
                  (fun history => eq_refl))).
Defined.

(** ** The answer to a request *)

Lemma call_answers (E : env) (c : nat) (payload : pyval) (s : state) :
  answered c s (snd (call E (Send c payload) s)).
Proof.
  rewrite call_run. exists [Send c payload]. split; [reflexivity|]. split.
  - repeat constructor.
  - cbn. now rewrite Nat.eqb_refl.
Qed.

Lemma answered_after (c : nat) (s s1 s2 : state) :
  adds (to_sender c) s s1 -> answered c s1 s2 -> answered c s s2.
Proof.
  intros [e1 [H1 F1]] [e2 [H2 [F2 S2]]]. exists (e1 ++ e2). split; [|split].
  - now rewrite H2, H1, app_assoc.
  - apply Forall_app. now split.
  - rewrite existsb_app, S2. apply orb_true_r.
Qed.

Lemma answered_twice (c : nat) (s s1 s2 : state) :
  answered c s s1 -> answered c s1 s2 -> answered c s s2.
Proof.
  intros [e1 [H1 [F1 _]]] H2. apply answered_after with (s1 := s1); [|exact H2].
  now exists e1.
Qed.

Lemma error_reply_answers (E : env) (c : nat) (x : exn) (s : state) :
  answered c s
    (snd (match x with
          | JSONDecodeError => call E (Send c (PDict [("error", PStr "Invalid JSON")]))
          | _ => call E (Send c (PDict [("error", PErrorText x)]))
          end s)).
Proof. destruct x; apply call_answers. Qed.

(** A handler that ends with a send to [c]. *)
Lemma reply_answers (E : env) (c : nat) (m : M unit) (s s0 : state) (payload : pyval) :
  adds (to_sender c) s s0 ->
  m s = call E (Send c payload) s0 ->
  answered c s
    (snd (try_except m
            (fun x =>
               match x with
               | JSONDecodeError =>
                   call E (Send c (PDict [("error", PStr "Invalid JSON")]))
               | _ => call E (Send c (PDict [("error", PErrorText x)]))
               end) s)).
Proof.
  intros Ha Hm. rewrite try_except_run, Hm.
  pose proof (call_answers E c payload s0) as H1.
  destruct (call E (Send c payload) s0) as [[[]|x] s1]; cbn [snd] in H1.
  - now apply answered_after with (s1 := s0).
  - apply answered_after with (s1 := s0); [exact Ha|].
    apply answered_twice with (s1 := s1); [exact H1 | apply error_reply_answers].
Qed.

(** A handler that raises before it has sent anything to [c]. *)
Lemma error_answers (E : env) (c : nat) (m : M unit) (s s0 : state) (x : exn) :
  adds (to_sender c) s s0 ->
  m s = (Raise x, s0) ->
  answered c s
    (snd (try_except m
            (fun x =>
               match x with
               | JSONDecodeError =>
                   call E (Send c (PDict [("error", PStr "Invalid JSON")]))
               | _ => call E (Send c (PDict [("error", PErrorText x)]))
               end) s)).
Proof.
  intros Ha Hm. rewrite try_except_run, Hm.
  apply answered_after with (s1 := s0); [exact Ha | apply error_reply_answers].
Qed.

Lemma adds_emergency_stop (E : env) (c : nat) :
  respects (adds (to_sender c)) (emergency_stop E).
Proof.
  unfold emergency_stop, assign_is_moving, sleep, pass.
  respecting ltac:(first
    [ exists []; split; [symmetry; apply app_nil_r | constructor]
    | eexists; split; [reflexivity | repeat constructor] ]).
Qed.

Lemma adds_trigger (c : nat) (action : string) :
  respects (adds (to_sender c)) (trigger_robot_action action).
Proof.
  unfold trigger_robot_action, start_thread.
  respecting ltac:(exists []; split; [symmetry; apply app_nil_r | constructor]).
Qed.

Lemma trigger_returns (action : string) (s : state) :
  exists ok, fst (trigger_robot_action action s) = Ok ok.
Proof.
  destruct (connected (robot s)) eqn:Hc.
  - exists true. now rewrite trigger_connected.
  - exists false. now rewrite trigger_disconnected.
Qed.

(** A request that is no smile is answered to its sender and to nobody
    else: whatever the bus does, [process_message] sends at least one
    message to the sender (the answer, or an error for a frame that is
    not JSON, not an object, or has an unknown command), sends nothing
    to any other client, and leaves the statistics, the clients, the
    registered actuators and the connection flag as they were. *)
Theorem request_answered_to_sender_only (E : env) (c : nat) (raw : inbound)
    (now : Z) (s : state) :
  is_smile (Receive c raw now) = false ->
  (exists evs,
      trace (snd (process_message E c raw now s)) = trace s ++ evs
      /\ Forall (to_sender c) evs
      /\ existsb (is_send_to c) evs = true)
  /\ stats (snd (process_message E c raw now s)) = stats s
  /\ clients (snd (process_message E c raw now s)) = clients s
  /\ wiring (snd (process_message E c raw now s)) = wiring s.
Proof.
  intros Hn.
  assert (Hk : forall (X : Type) (f : state -> X),
             (forall evs s, f (emit evs s) = f s) ->
             (forall ts s, f (with_threads ts s) = f s) ->
             (forall b s, f (with_robot (set_is_moving b (robot s)) s) = f s) ->
             (forall a s, f (with_robot (set_current_action a (robot s)) s) = f s) ->
             f (snd (process_message E c raw now s)) = f s).
  { intros X f H1 H2 H3 H4.
    apply keeps_process_message; try assumption.
    intros H. congruence. }
  split; [|repeat split; apply Hk; reflexivity].
  change (answered c s (snd (process_message E c raw now s))).
  assert (Hs : adds (to_sender c) s s) by reflexivity.
  unfold process_message. destruct raw as [| |data].
  - exact (error_reply_answers E c JSONDecodeError s).
  - exact (error_reply_answers E c AttributeError s).
  - cbn [is_smile] in Hn. cbv zeta. rewrite Hn.
    destruct (print match msg_command data with Some c0 => c0 | None => "None" end)
      as [[]|x] eqn:Hpc;
      [|eapply error_answers; [exact Hs | rewrite lift_bind_run; reflexivity]].
    destruct (command_is (msg_command data) "test_action");
      [|destruct (command_is (msg_command data) "get_status")].
    + unfold handle_test_action. cbv zeta.
      destruct (print (action_of data)) as [[]|x] eqn:Hpa;
        [|eapply error_answers;
          [exact Hs | rewrite !lift_bind_run; reflexivity]].
      destruct (String.eqb (action_of data) "stop").
      * pose proof (emergency_stop_halts E s) as Hok.
        pose proof (adds_emergency_stop E c s) as Ha.
        destruct (emergency_stop E s) as [r s0] eqn:He. cbn [fst snd] in Hok, Ha.
        subst r. eapply reply_answers; [exact Ha|].
        rewrite !lift_bind_run, !bind_run, He. reflexivity.
      * destruct (trigger_returns (action_of data) s) as [ok Hok].
        pose proof (adds_trigger c (action_of data) s) as Ha.
        destruct (trigger_robot_action (action_of data) s) as [r s0] eqn:He.
        cbn [fst snd] in Hok, Ha. subst r. destruct ok.
        -- eapply reply_answers; [exact Ha|].
           rewrite !lift_bind_run, !bind_run, He. reflexivity.
        -- eapply reply_answers; [exact Ha|].
           rewrite !lift_bind_run, !bind_run, He. reflexivity.
    + eapply reply_answers; [exact Hs | rewrite lift_bind_run; reflexivity].
    + eapply reply_answers; [exact Hs | rewrite lift_bind_run; reflexivity].
Qed.

Lemma request_answered_to_sender_only_witness :
  is_smile (Receive 1%nat (test "stop") 5) = false
  /\ clients (snd (process_message faulty 1%nat (test "stop") 5 (ready faulty)))
     = clients (ready faulty).
Proof.
  split; [reflexivity|].
  exact (proj1 (proj2 (proj2
           (@request_answered_to_sender_only faulty 1%nat (test "stop") 5
              (ready faulty) eq_refl)))).
Defined.

Lemma send_reaches (E : env) (c : nat) (payload : pyval) (s : state) :
  reachable E c -> fst (call E (Send c payload) s) = Ok tt.
Proof. intros H. rewrite call_run. now rewrite H. Qed.

Lemma error_reply_reaches (E : env) (c : nat) (x : exn) (s : state) :
  reachable E c ->
  fst (match x with
       | JSONDecodeError => call E (Send c (PDict [("error", PStr "Invalid JSON")]))
       | _ => call E (Send c (PDict [("error", PErrorText x)]))
       end s) = Ok tt.
Proof. intros H. destruct x; now apply send_reaches. Qed.

(** As long as the sender of a message can be sent to,
    [process_message] returns normally for every frame - not JSON, not
    an object, an unknown command, a text that cannot be printed, a
    smile whose score cannot be formatted, a request while the robot is
    away or busy - so the
    loop of [handle_client] goes on and the client stays among the
    clients of the server. *)
Theorem reachable_sender_is_kept (E : env) (c : nat) (raw : inbound) (now : Z)
    (s : state) :
  reachable E c ->
  fst (process_message E c raw now s) = Ok tt
  /\ receive E c raw now s = process_message E c raw now s
  /\ clients (snd (receive E c raw now s)) = clients s.
Proof.
  intros HE.
  assert (Hok : fst (process_message E c raw now s) = Ok tt).
  { unfold process_message. rewrite try_except_run. destruct raw as [| |data].
    - exact (error_reply_reaches JSONDecodeError s HE).
    - exact (error_reply_reaches AttributeError s HE).
    - cbv zeta. rewrite lift_bind_run.
      destruct (print _) as [[]|x]; [|now apply error_reply_reaches].
      destruct (command_is (msg_command data) "smile_detected");
        [|destruct (command_is (msg_command data) "test_action");
          [|destruct (command_is (msg_command data) "get_status")]].
      + destruct (float_format (score_of data)) as [[]|x] eqn:Hf.
        * destruct (has_surrogate (action_of data)) eqn:Hp.
          -- rewrite (handle_smile_unprinted E c data now s Hf Hp).
             now apply send_reaches.
          -- assert (Hq : print (action_of data) = Ok tt)
               by (unfold print; now rewrite Hp).
             now rewrite (handle_smile_formatted E c data now s Hf Hq).
        * rewrite (handle_smile_unformatted E c data now s Hf).
          now apply error_reply_reaches.
      + unfold handle_test_action. cbv zeta. rewrite lift_bind_run.
        destruct (print (action_of data)) as [[]|x]; [|now apply error_reply_reaches].
        rewrite bind_run.
        destruct (String.eqb (action_of data) "stop").
        * rewrite bind_run. pose proof (emergency_stop_halts E s) as H.
          destruct (emergency_stop E s) as [r s0]. cbn [fst] in H. subst r.
          unfold ret at 1. rewrite call_run, HE. reflexivity.
        * rewrite bind_run. destruct (trigger_returns (action_of data) s) as [ok H].
          destruct (trigger_robot_action (action_of data) s) as [r s0].
          cbn [fst] in H. subst r.
          destruct ok; unfold ret at 1; rewrite call_run, HE; reflexivity.
      + unfold send_status. rewrite bind_run. unfold get at 1.
        rewrite call_run, HE. reflexivity.
      + rewrite call_run, HE. reflexivity. }
  assert (Hr : receive E c raw now s = process_message E c raw now s).
  { unfold receive. rewrite try_except_run.
    destruct (process_message E c raw now s) as [[[]|x] s1]; [reflexivity|discriminate]. }
  split; [exact Hok|]. split; [exact Hr|]. rewrite Hr.
  apply (@keeps_process_message _ clients); reflexivity.
Qed.

Lemma reachable_sender_is_kept_witness :
  reachable stocked 1%nat
  /\ clients (snd (receive stocked 1%nat Undecodable 5 (ready stocked)))
     = clients (ready stocked).
Proof.
  split; [intros history payload; reflexivity|].
  exact (proj2 (proj2
           (@reachable_sender_is_kept stocked 1%nat Undecodable 5 (ready stocked)
              (fun history payload => eq_refl)))).
Defined.

(** ** A stop while a sequence plays *)

Lemma nth_error_list_set (A : Type) (i : nat) (x y : A) (l : list A) :
  nth_error l i = Some y -> nth_error (list_set i x l) i = Some x.
Proof.
  revert i. induction l as [|z l IH]; intros [|i] H; try discriminate.
  - reflexivity.
  - cbn [list_set nth_error] in *. now apply IH.
Qed.

(** [emergency_stop] does not cancel a sequence that is playing: the
    thread that has claimed the engine goes on after the stop and sends
    the whole sequence - every frame, the delays and the home position -
    to the actuators whose torque the stop has just enabled again,
    while [is_moving] is false. *)
Theorem stop_does_not_cancel_playback (E : env) (i : nat) (seq_file name : string)
    (rows : list csv_row) (recs : list record) (s : state) :
  nth_error (threads s) i = Some (T_body (K_play seq_file name)) ->
  files E seq_file = Some rows ->
  parse_rows rows = Some recs ->
  is_moving (robot (exec E [Emergency_stop] s)) = false
  /\ trace (exec E [Emergency_stop; Run i] s)
     = trace (exec E [Emergency_stop] s) ++ playback true (robot s) recs
  /\ is_moving (robot (exec E [Emergency_stop; Run i] s)) = false
  /\ nth_error (threads (exec E [Emergency_stop; Run i] s)) i = Some T_clear_moving.
Proof.
  intros Ht Hf Hp. cbn [exec do_label].
  destruct (emergency_stop_state E s) as [evs Hs]. rewrite Hs.
  set (s1 := emit evs (with_robot (set_is_moving false (robot s)) s)).
  assert (Hrun : run_thread E i s1
                 = (Ok tt,
                    with_threads (list_set i T_clear_moving (threads s))
                      (emit (playback true (robot s) recs) s1))).
  { unfold run_thread. rewrite bind_run. unfold get at 1.
    change (threads s1) with (threads s). rewrite Ht.
    rewrite bind_run, try_except_run. cbn [step_task body].
    rewrite bind_run, try_except_run, (play_body_events E seq_file s1 Hf Hp).
    reflexivity. }
  rewrite Hrun. cbn [snd]. split; [reflexivity|]. split; [reflexivity|].
  split; [reflexivity|].
  cbn [threads with_threads]. now apply nth_error_list_set with (y := T_body (K_play seq_file name)).
Qed.

Lemma stop_does_not_cancel_playback_witness :
  nth_error (threads (exec stocked dance_playing (initial 0))) 1
  = Some (T_body (K_play "poses/dance.csv" "dance"))
  /\ files stocked "poses/dance.csv"
     = Some [row 5 1 140%float; row 0 1 100%float; row 0 2 50%float; row 0 11 7%float]
  /\ parse_rows [row 5 1 140%float; row 0 1 100%float; row 0 2 50%float;
                 row 0 11 7%float] = Some dance_records
  /\ trace (exec stocked [Emergency_stop; Run 1%nat]
              (exec stocked dance_playing (initial 0)))
     = trace (exec stocked [Emergency_stop] (exec stocked dance_playing (initial 0)))
       ++ playback true (robot (exec stocked dance_playing (initial 0))) dance_records.
Proof.
  split; [reflexivity|]. split; [reflexivity|]. split; [reflexivity|].
  exact (proj1 (proj2
           (@stop_does_not_cancel_playback stocked 1%nat "poses/dance.csv" "dance" _ _
              (exec stocked dance_playing (initial 0)) eq_refl eq_refl eq_refl))).
Defined.

(** ** A test while the robot is busy *)

Lemma play_sequence_busy (E : env) (name : string) (s : state) :
  is_moving (robot s) = true -> play_sequence E name s = (Ok false, s).
Proof.
  intros Hm. unfold play_sequence. rewrite bind_run. unfold get at 1.
  rewrite Hm, orb_true_r. reflexivity.
Qed.

Lemma run_action_busy (E : env) (action : string) (s : state) :
  is_moving (robot s) = true -> run_action E action s = (Ok tt, s).
Proof.
  intros Hm. destruct (fallback action) as [m|] eqn:Hf.
  - pose proof (fallback_names action Hf) as ->.
    rewrite run_action_builtin, bind_run, (play_sequence_busy E _ s Hm).
    cbn [negb]. apply simple_not_ready. now right.
  - rewrite (run_action_other E action s Hf), bind_run,
      (play_sequence_busy E _ s Hm).
    reflexivity.
Qed.

(** Unlike a smile, a test request is not checked against [is_moving]:
    on a connected engine that is busy, [handle_test_action] (for an
    action other than "stop", that can be printed) still answers
    status "Moving" and starts the thread of the action; that thread,
    run while the engine is still busy, does nothing at all. *)
Theorem test_says_moving_while_busy (E : env) (c : nat) (data : message) (s : state) :
  connected (robot s) = true ->
  is_moving (robot s) = true ->
  action_of data <> "stop" ->
  print (action_of data) = Ok tt ->
  snd (handle_test_action E c data s)
  = emit [Send c (PDict [("message", PStr ("Testing: " ++ action_of data)%string);
                         ("status", PStr "Moving")])]
      (with_threads (threads s ++ [T_run_action (action_of data)]) s)
  /\ run_action E (action_of data) (snd (handle_test_action E c data s))
     = (Ok tt, snd (handle_test_action E c data s)).
Proof.
  intros Hc Hm Ha Hp.
  assert (Hs : snd (handle_test_action E c data s)
               = emit [Send c (PDict [("message",
                                       PStr ("Testing: " ++ action_of data)%string);
                                      ("status", PStr "Moving")])]
                   (with_threads (threads s ++ [T_run_action (action_of data)]) s)).
  { unfold handle_test_action. cbv zeta. rewrite lift_bind_run, Hp.
    destruct (String.eqb (action_of data) "stop") eqn:He;
      [apply String.eqb_eq in He; contradiction|].
    rewrite !bind_run, (trigger_connected (action_of data) s Hc).
    unfold ret at 1. rewrite call_run. reflexivity. }
  split; [exact Hs|]. rewrite Hs. apply run_action_busy. exact Hm.
Qed.

Lemma test_says_moving_while_busy_witness :
  connected (robot (exec stocked dance_playing (initial 0))) = true
  /\ is_moving (robot (exec stocked dance_playing (initial 0))) = true
  /\ action_of {| msg_command := Some "test_action"; msg_smile_score := None;
                  msg_action := Some "wave" |} <> "stop"
  /\ print "wave" = Ok tt
  /\ run_action stocked "wave"
       (snd (handle_test_action stocked 1%nat
               {| msg_command := Some "test_action"; msg_smile_score := None;
                  msg_action := Some "wave" |}
               (exec stocked dance_playing (initial 0))))
     = (Ok tt,
        snd (handle_test_action stocked 1%nat
               {| msg_command := Some "test_action"; msg_smile_score := None;
                  msg_action := Some "wave" |}
               (exec stocked dance_playing (initial 0)))).
Proof.
  split; [reflexivity|]. split; [reflexivity|]. split; [discriminate|].
  split; [reflexivity|].
  exact (proj2
           (@test_says_moving_while_busy stocked 1%nat
              {| msg_command := Some "test_action"; msg_smile_score := None;
                 msg_action := Some "wave" |}
              (exec stocked dance_playing (initial 0))
              eq_refl eq_refl ltac:(discriminate) eq_refl)).
Defined.

(** ** The two flags *)

#[global] Instance calm_preorder (strict : bool) : PreOrder (calm strict).
Proof.
  split.
  - intros s. split; [now left|]. split; [reflexivity|].
    exists []. split; [now rewrite app_nil_r | reflexivity].
  - intros a b c [Hm [Ha [st [Ht Hs]]]] [Hm' [Ha' [st' [Ht' Hs']]]].
    split; [|split].
    + destruct Hm' as [Hm'|Hm']; [|now right].
      rewrite Hm'. exact Hm.
    + congruence.
    + exists (st ++ st'). split; [now rewrite Ht', Ht, app_assoc|].
      now rewrite existsb_app, Hs, Hs'.
Qed.

(** A primitive that leaves the flags and starts at most a thread that
    has claimed nothing. *)
Ltac calmly :=
  split;
  [ first [left; reflexivity | right; split; reflexivity]
  | split;
    [ reflexivity
    | first [ exists []; split; [symmetry; apply app_nil_r | reflexivity]
            | eexists; split; reflexivity ] ] ].

Section Calm.

Variable strict : bool.

Lemma calm_play_sequence (E : env) (name : string) :
  respects (calm strict) (play_sequence E name).
Proof. unfold play_sequence, start_thread. respecting calmly. Qed.

Lemma calm_trigger (action : string) :
  respects (calm strict) (trigger_robot_action action).
Proof. unfold trigger_robot_action, start_thread. respecting calmly. Qed.

Lemma calm_broadcast (E : env) (payload : pyval) :
  respects (calm strict) (broadcast E payload).
Proof. unfold broadcast, pass. respecting calmly. Qed.

Lemma calm_send_status (E : env) (c : nat) (now : Z) :
  respects (calm strict) (send_status E c now).
Proof. unfold send_status. respecting calmly. Qed.

Lemma calm_remove_client (c : nat) : respects (calm strict) (remove_client c).
Proof. unfold remove_client. respecting calmly. Qed.

Lemma calm_accept_client (E : env) (c : nat) (now : Z) :
  respects (calm strict) (accept_client E c now).
Proof.
  unfold accept_client.
  apply respects_bind; [respecting calmly | intros _; apply calm_send_status].
Qed.

Lemma calm_set_home_position (E : env) :
  respects (calm strict) (set_home_position E).
Proof. unfold set_home_position, pass. respecting calmly. Qed.

Lemma calm_connect (E : env) : respects (calm strict) (connect E).
Proof.
  unfold connect, add_servo, assign_connected, pass.
  apply respects_try_except; [|intros x; respecting calmly].
  apply respects_bind; [respecting calmly | intros _].
  apply respects_bind; [respecting calmly | intros _].
  apply respects_bind; [apply respects_get | intros s1].
  apply respects_bind; [respecting calmly | intros _].
  apply respects_bind; [apply respects_get | intros s2].
  apply respects_bind; [|intros _; respecting calmly].
  destruct (connected (robot s2)); [apply calm_set_home_position | apply respects_ret].
Qed.

Lemma calm_disconnect (E : env) : respects (calm strict) (disconnect E).
Proof. unfold disconnect, assign_connected, pass. respecting calmly. Qed.

Lemma calm_handle_smile (E : env) (c : nat) (data : message) (now : Z) :
  respects (calm strict) (handle_smile E c data now).
Proof.
  unfold handle_smile, add_total_smiles, assign_last_smile, add_total_movements.
  apply respects_bind; [respecting calmly | intros _].
  apply respects_bind; [respecting calmly | intros _].
  apply respects_bind; [apply respects_lift | intros _].
  apply respects_bind; [apply respects_lift | intros _].
  apply respects_bind; [apply respects_get | intros s].
  apply respects_bind; [|intros r; apply calm_broadcast].
  destruct (negb (is_moving (robot s))); [|apply respects_ret].
  apply respects_bind; [apply calm_trigger | intros ok].
  destruct ok; respecting calmly.
Qed.

End Calm.

Lemma calm_emergency_stop (E : env) : respects (calm false) (emergency_stop E).
Proof. unfold emergency_stop, assign_is_moving, sleep, pass. respecting calmly. Qed.

Lemma calm_handle_test_action (strict : bool) (E : env) (c : nat) (data : message) :
  (strict = true -> String.eqb (action_of data) "stop" = false) ->
  respects (calm strict) (handle_test_action E c data).
Proof.
  intros Hs. unfold handle_test_action.
  apply respects_bind; [apply respects_lift | intros _].
  apply respects_bind; [|intros r; respecting calmly].
  destruct (String.eqb (action_of data) "stop").
  - destruct strict; [now specialize (Hs eq_refl)|].
    apply respects_bind; [apply calm_emergency_stop | intros ?; apply respects_ret].
  - apply respects_bind; [apply calm_trigger | intros ok].
    destruct ok; apply respects_ret.
Qed.

Lemma calm_process_message (strict : bool) (E : env) (c : nat) (raw : inbound)
    (now : Z) :
  (strict = true -> is_stop (Receive c raw now) = false) ->
  respects (calm strict) (process_message E c raw now).
Proof.
  intros Hs. unfold process_message. apply respects_try_except.
  - destruct raw as [| |data]; [apply respects_raise | apply respects_raise |].
    cbv zeta. cbn [is_stop] in Hs.
    apply respects_bind; [apply respects_lift | intros _].
    destruct (command_is (msg_command data) "smile_detected");
      [apply calm_handle_smile|].
    destruct (command_is (msg_command data) "test_action");
      [apply calm_handle_test_action; exact Hs|].
    destruct (command_is (msg_command data) "get_status");
      [apply calm_send_status|].
    respecting calmly.
  - intros x. destruct x; respecting calmly.
Qed.

(** A step of the machine that is no statement of a thread. *)
Lemma calm_do_label (strict : bool) (E : env) (l : label) :
  (forall i, l <> Run i) ->
  (strict = true -> is_stop l = false) ->
  respects (calm strict) (do_label E l).
Proof.
  intros Hl Hs. destruct l as [i|c now|c raw now|c| |name|m| |]; cbn [do_label].
  - now elim (Hl i).
  - apply respects_try_except; [apply calm_accept_client | intros ?; apply respects_ret].
  - unfold receive. apply respects_try_except;
      [apply calm_process_message; exact Hs | intros ?; apply calm_remove_client].
  - apply calm_remove_client.
  - apply respects_bind; [apply calm_connect | intros ?; apply respects_ret].
  - apply respects_bind; [apply calm_play_sequence | intros ?; apply respects_ret].
  - unfold start_thread. respecting calmly.
  - destruct strict; [now specialize (Hs eq_refl) | apply calm_emergency_stop].
  - apply calm_disconnect.
Qed.

(** Lists of threads of which at most one is in flight. *)
Section Holders.

Variable p : task -> bool.
Hypothesis p_in_flight : forall t, p t = true -> in_flight t = true.

Lemma nobody_holds (l : list task) :
  List.length (filter in_flight l) = 0%nat -> existsb p l = false.
Proof.
  induction l as [|x l IH]; [reflexivity|]. cbn [filter existsb].
  destruct (in_flight x) eqn:Hx; [discriminate|]. intros H.
  rewrite (IH H), orb_false_r. apply not_true_is_false. intros Hp.
  apply p_in_flight in Hp. congruence.
Qed.

Lemma holder_decides (l : list task) (i : nat) (t : task) :
  (List.length (filter in_flight l) <= 1)%nat ->
  nth_error l i = Some t -> in_flight t = true -> existsb p l = p t.
Proof.
  revert i. induction l as [|x l IH]; intros [|i] Hc Hn Ht; try discriminate.
  - injection Hn as ->. cbn [filter existsb] in *. rewrite Ht in Hc.
    cbn [List.length] in Hc. rewrite nobody_holds by lia. apply orb_false_r.
  - cbn [nth_error] in Hn. cbn [filter existsb] in *.
    assert (Hl : (1 <= List.length (filter in_flight l))%nat).
    { clear IH Hc. revert i Hn. induction l as [|y l IH]; intros [|i] Hn; try discriminate.
      - injection Hn as ->. cbn [filter]. rewrite Ht. cbn [List.length]. lia.
      - cbn [nth_error] in Hn. cbn [filter].
        specialize (IH i Hn). destruct (in_flight y); cbn [List.length]; lia. }
    destruct (in_flight x) eqn:Hx; [cbn [List.length] in Hc; lia|].
    assert (Hp : p x = false).
    { apply not_true_is_false. intros Hp. apply p_in_flight in Hp. congruence. }
    rewrite Hp. cbn [orb]. now apply (IH i).
Qed.

Lemma existsb_list_set_same (l : list task) (i : nat) (t t' : task) :
  nth_error l i = Some t -> p t' = p t ->
  existsb p (list_set i t' l) = existsb p l.
Proof.
  revert i. induction l as [|x l IH]; intros [|i] Hn Hp; try discriminate.
  - injection Hn as ->. cbn [list_set existsb]. now rewrite Hp.
  - cbn [nth_error] in Hn. cbn [list_set existsb]. now rewrite (IH i Hn Hp).
Qed.

End Holders.

Lemma count_list_set (l : list task) (i : nat) (t t' : task) :
  nth_error l i = Some t ->
  (List.length (filter in_flight (list_set i t' l))
   + (if in_flight t then 1 else 0)
   = List.length (filter in_flight l) + (if in_flight t' then 1 else 0))%nat.
Proof.
  revert i. induction l as [|x l IH]; intros [|i] Hn; try discriminate.
  - injection Hn as ->. cbn [list_set filter].
    destruct (in_flight t), (in_flight t'); cbn [List.length]; lia.
  - cbn [nth_error] in Hn. cbn [list_set filter]. specialize (IH i Hn).
    destruct (in_flight x); cbn [List.length]; lia.
Qed.

Lemma list_set_app (A : Type) (l l' : list A) (i : nat) (x y : A) :
  nth_error l i = Some y -> list_set i x (l ++ l') = list_set i x l ++ l'.
Proof.
  revert i. induction l as [|z l IH]; intros [|i] Hn; try discriminate.
  - reflexivity.
  - cbn [nth_error] in Hn. cbn [list_set app]. now rewrite (IH i Hn).
Qed.

Lemma filter_none (A : Type) (q : A -> bool) (l : list A) :
  existsb q l = false -> filter q l = [].
Proof.
  induction l as [|x l IH]; [reflexivity|]. cbn [existsb filter].
  destruct (q x); [discriminate | exact IH].
Qed.

Lemma holds_busy_in_flight (t : task) : holds_busy t = true -> in_flight t = true.
Proof. unfold in_flight. now intros ->. Qed.

Lemma holds_action_in_flight (t : task) : holds_action t = true -> in_flight t = true.
Proof. unfold in_flight. intros ->. apply orb_true_r. Qed.

Lemma existsb_started (p : task -> bool) (started : list task) :
  (forall t, p t = true -> in_flight t = true) ->
  existsb in_flight started = false -> existsb p started = false.
Proof.
  intros Hp Hs. apply not_true_is_false. intros H.
  apply existsb_exists in H. destruct H as [t [Hin Ht]].
  assert (existsb in_flight started = true)
    by (apply existsb_exists; exists t; auto).
  congruence.
Qed.

(** One statement of a thread, exactly: what it assigns to the flags
    and what the thread holds afterwards. *)
Lemma step_task_assigns (E : env) (t : task) (s : state) :
  exists t' s' started,
    step_task E t s = (Ok t', s')
    /\ threads s' = threads s ++ started
    /\ existsb in_flight started = false
    /\ is_moving (robot s')
       = match t with
         | T_set_moving _ => true
         | T_clear_moving => false
         | _ => is_moving (robot s)
         end
    /\ current_action (robot s')
       = match t with
         | T_set_action k => Some (kind_name k)
         | T_clear_action => None
         | _ => current_action (robot s)
         end
    /\ holds_busy t'
       = match t with
         | T_set_moving _ | T_set_action _ | T_body _ => true
         | _ => false
         end
    /\ holds_action t'
       = match t with
         | T_set_action _ | T_body _ | T_clear_moving => true
         | _ => false
         end.
Proof.
  assert (Hnil : forall l : list task, l = l ++ []) by (intros; now rewrite app_nil_r).
  destruct t as [action|m|k|k|k| | |]; cbn [step_task].
  - pose proof (calm_play_sequence true E action s) as [Hm [Ha [started [Ht Hs]]]].
    destruct (play_sequence_returns E action s) as [ok Hok].
    rewrite bind_run.
    destruct (play_sequence E action s) as [[o|x] s1]; [|discriminate].
    cbn [snd] in Hm, Ha, Ht.
    destruct Hm as [Hm|[Hm _]]; [|discriminate].
    exists (match fallback action with
            | Some m => if o then T_done else T_simple m
            | None => T_done
            end), s1, started.
    split; [destruct (fallback action); [destruct o|]; reflexivity|].
    repeat split; auto; destruct (fallback action); try destruct o; reflexivity.
  - rewrite bind_run. unfold not_ready. rewrite bind_run. unfold get at 1, ret at 1.
    exists (if negb (connected (robot s)) || is_moving (robot s)
            then T_done else T_set_moving (K_simple m)), s, [].
    split; [now destruct (negb (connected (robot s)) || is_moving (robot s))|].
    repeat split; auto;
      destruct (negb (connected (robot s)) || is_moving (robot s)); reflexivity.
  - eexists _, _, []. split; [reflexivity|]. repeat split. apply Hnil.
  - eexists _, _, []. split; [reflexivity|]. repeat split. apply Hnil.
  - rewrite bind_run, try_except_run.
    destruct (only_emits_body E k s) as [evs [Hs _]].
    destruct (body E k s) as [[[]|x] s1]; cbn [snd] in Hs; subst s1;
      (eexists _, _, []; split; [reflexivity|]; repeat split; apply Hnil).
  - eexists _, _, []. split; [reflexivity|]. repeat split. apply Hnil.
  - eexists _, _, []. split; [reflexivity|]. repeat split. apply Hnil.
  - eexists _, _, []. split; [reflexivity|]. repeat split. apply Hnil.
Qed.

Lemma holders_after_step (p : task -> bool) (l : list task) (i : nat) (t t' : task) :
  (forall x, p x = true -> in_flight x = true) ->
  nth_error l i = Some t ->
  (List.length (filter in_flight l) <= 1)%nat ->
  (List.length (filter in_flight (list_set i t' l)) <= 1)%nat ->
  existsb p (list_set i t' l)
  = (if in_flight t' then p t' else if in_flight t then false else existsb p l)
  /\ (in_flight t = true -> existsb p l = p t)
  /\ (in_flight t = false -> in_flight t' = true -> existsb p l = false).
Proof.
  intros Hp Hn Hc Hc'. pose proof (count_list_set l i t' Hn) as Hcount.
  split; [|split].
  - destruct (in_flight t') eqn:Ht'.
    + apply (@holder_decides p Hp) with (i := i); auto.
      now apply nth_error_list_set with (y := t).
    + destruct (in_flight t) eqn:Ht.
      * apply (@nobody_holds p Hp). lia.
      * apply existsb_list_set_same with (t := t); [exact Hn|].
        transitivity false; [|symmetry]; apply not_true_is_false; intros H;
          apply Hp in H; congruence.
  - intros Ht. now apply (@holder_decides p Hp) with (i := i).
  - intros Ht Ht'. rewrite Ht, Ht' in Hcount. apply (@nobody_holds p Hp). lia.
Qed.

Lemma run_thread_none (E : env) (i : nat) (s : state) :
  nth_error (threads s) i = None -> run_thread E i s = (Ok tt, s).
Proof. intros Hn. unfold run_thread. rewrite bind_run. unfold get. now rewrite Hn. Qed.

Lemma run_thread_some (E : env) (i : nat) (s s1 : state) (t t' : task) :
  nth_error (threads s) i = Some t ->
  step_task E t s = (Ok t', s1) ->
  run_thread E i s = (Ok tt, with_threads (list_set i t' (threads s1)) s1).
Proof.
  intros Hn Hs. unfold run_thread. rewrite bind_run. unfold get at 1. rewrite Hn.
  rewrite bind_run, try_except_run, Hs. reflexivity.
Qed.

Lemma tracked_run_thread (E : env) (i : nat) (s : state) :
  flags_tracked s ->
  (count_in_flight s <= 1)%nat ->
  (count_in_flight (snd (run_thread E i s)) <= 1)%nat ->
  flags_tracked (snd (run_thread E i s)).
Proof.
  unfold count_in_flight, flags_tracked, has_action.
  intros [Hbusy Hact] Hc.
  destruct (nth_error (threads s) i) as [t|] eqn:Hn;
    [|rewrite (@run_thread_none E i s Hn); now split].
  destruct (step_task_assigns E t s)
    as [t' [s1 [started [Hstep [Ht [Hst [Hm [Ha [Hb Hh]]]]]]]]].
  rewrite (@run_thread_some E i s s1 t t' Hn Hstep). cbn [snd].
  cbn [robot threads with_threads]. rewrite Ht, (@list_set_app _ (threads s) started i t' t Hn).
  rewrite filter_app, (@filter_none _ in_flight started Hst), app_nil_r, !existsb_app.
  rewrite (@existsb_started holds_busy started holds_busy_in_flight Hst),
    (@existsb_started holds_action started holds_action_in_flight Hst), !orb_false_r.
  intros Hc'. rewrite Hm, Ha.
  destruct (@holders_after_step holds_busy (threads s) i t t'
              holds_busy_in_flight Hn Hc Hc') as [B1 [B2 B3]].
  destruct (@holders_after_step holds_action (threads s) i t t'
              holds_action_in_flight Hn Hc Hc') as [A1 [A2 A3]].
  rewrite B1, A1. unfold in_flight in *. rewrite Hb, Hh in *.
  destruct t as [action|m|k|k|k| | |]; cbn [holds_busy holds_action orb] in *;
    try (split; [exact Hbusy | exact Hact]).
  - split; [reflexivity|]. rewrite Hact. now apply A3.
  - split; [|reflexivity]. rewrite Hbusy. now apply B2.
  - split; [rewrite Hbusy; now apply B2 | rewrite Hact; now apply A2].
  - split; [reflexivity|]. rewrite Hact. now apply A2.
  - split; [|reflexivity]. rewrite Hbusy. now apply B2.
Qed.

Lemma tracked_calm (strict : bool) (s s' : state) :
  calm strict s s' ->
  (strict = false -> count_in_flight s = 0%nat) ->
  flags_tracked s ->
  flags_tracked s' /\ count_in_flight s' = count_in_flight s.
Proof.
  unfold count_in_flight, flags_tracked, has_action.
  intros [Hm [Ha [started [Ht Hs]]]] H0 [Hbusy Hact].
  rewrite Ht, filter_app, (@filter_none _ in_flight started Hs), app_nil_r, !existsb_app.
  rewrite (@existsb_started holds_busy started holds_busy_in_flight Hs),
    (@existsb_started holds_action started holds_action_in_flight Hs), !orb_false_r, Ha.
  split; [|reflexivity]. split; [|exact Hact].
  destruct Hm as [Hm|[Hst Hm]]; [congruence|].
  rewrite Hm. symmetry. apply (@nobody_holds _ holds_busy_in_flight). now apply H0.
Qed.

Lemma tracked_step (E : env) (l : label) (s : state) :
  flags_tracked s ->
  (count_in_flight s <= 1)%nat ->
  negb (is_stop l) || Nat.eqb (count_in_flight s) 0 = true ->
  (count_in_flight (snd (do_label E l s)) <= 1)%nat ->
  flags_tracked (snd (do_label E l s)).
Proof.
  intros Hs Hc Hstop Hc'.
  destruct (is_stop l) eqn:Hl; cbn [negb orb] in Hstop.
  - apply Nat.eqb_eq in Hstop.
    apply (@tracked_calm false s); [|auto|exact Hs].
    apply calm_do_label; [|discriminate].
    intros i ->. discriminate.
  - destruct l as [i|c now|c raw now|c| |name|m| |];
      try (apply (@tracked_calm true s); [|discriminate|exact Hs];
           apply calm_do_label; [discriminate | intros _; exact Hl]).
    now apply tracked_run_thread.
Qed.

Lemma settled_holders (l : list task) :
  forallb settled l = true -> existsb holds_busy l = existsb holds_action l.
Proof.
  induction l as [|t l IH]; [reflexivity|]. cbn [forallb existsb].
  intros Hall. apply andb_true_iff in Hall. destruct Hall as [Ht Hl].
  unfold settled in Ht. apply eqb_prop in Ht. now rewrite Ht, (IH Hl).
Qed.

Lemma exec_app (E : env) (ls1 ls2 : list label) (s : state) :
  exec E (ls1 ++ ls2) s = exec E ls2 (exec E ls1 s).
Proof.
  revert s. induction ls1 as [|l ls1 IH]; intros s; [reflexivity|].
  cbn [app exec]. apply IH.
Qed.

Lemma orderly_keeps_tracking (E : env) (ls : list label) (s : state) :
  flags_tracked s -> (count_in_flight s <= 1)%nat ->
  orderly E ls s = true -> flags_tracked (exec E ls s).
Proof.
  revert s. induction ls as [|l ls IH]; intros s Hs Hc Ho; [exact Hs|].
  cbn [orderly exec] in *.
  apply andb_true_iff in Ho. destruct Ho as [Ho Hrest].
  apply andb_true_iff in Ho. destruct Ho as [Hstop Hc'].
  apply Nat.leb_le in Hc'.
  apply IH; [|exact Hc'|exact Hrest]. now apply tracked_step.
Qed.

(** Whenever no thread is in flight, whatever happened before, both
    flags are clear. *)
Lemma idle_is_tracked (E : env) (ls : list label) (now : Z) :
  existsb in_flight (threads (exec E ls (initial now))) = false ->
  flags_tracked (exec E ls (initial now))
  /\ count_in_flight (exec E ls (initial now)) = 0%nat.
Proof.
  intros Hq.
  assert (Hb : flags_backed (exec E ls (initial now))).
  { apply exec_keeps_backing. split; simpl; [discriminate | congruence]. }
  destruct Hb as [H1 H2].
  assert (Hc : count_in_flight (exec E ls (initial now)) = 0%nat).
  { unfold count_in_flight. now rewrite (@filter_none _ in_flight _ Hq). }
  pose proof (@nobody_holds _ holds_busy_in_flight _ Hc) as Nb.
  pose proof (@nobody_holds _ holds_action_in_flight _ Hc) as Na.
  split; [|exact Hc]. unfold flags_tracked, has_action. rewrite Nb, Na. split.
  - apply not_true_is_false. intros H. apply H1 in H. congruence.
  - destruct (current_action (robot (exec E ls (initial now)))) eqn:Hcur; [|reflexivity].
    assert (existsb holds_action (threads (exec E ls (initial now))) = true)
      by (apply H2; discriminate).
    congruence.
Qed.

(** C2 (amended). From the initial state, after any sequence of
    operations of the engine, requests to the server and statements of
    the threads, in any order: if, since the last state in which no
    motion was in flight, the motions have not overlapped and no stop
    was requested while a motion was in flight, then [is_moving] is set
    exactly when a thread is between its assignments of [is_moving],
    and [current_action] exactly when a thread is between its
    assignments of [current_action]. So, whenever no thread is between
    the two assignments of its claim or of its release, busy holds iff
    an action is current: both while a motion plays, neither when none
    is in flight. *)
Theorem flags_agree_in_orderly_runs (E : env) (before ls : list label) (now : Z) :
  existsb in_flight (threads (exec E before (initial now))) = false ->
  orderly E ls (exec E before (initial now)) = true ->
  is_moving (robot (exec E (before ++ ls) (initial now)))
  = existsb holds_busy (threads (exec E (before ++ ls) (initial now)))
  /\ has_action (exec E (before ++ ls) (initial now))
     = existsb holds_action (threads (exec E (before ++ ls) (initial now)))
  /\ (forallb settled (threads (exec E (before ++ ls) (initial now))) = true ->
      flags_agree (exec E (before ++ ls) (initial now))).
Proof.
  intros Hidle Ho. rewrite exec_app.
  destruct (idle_is_tracked E before now Hidle) as [Hs Hc].
  assert (Ht : flags_tracked (exec E ls (exec E before (initial now)))).
  { apply orderly_keeps_tracking; [exact Hs | lia | exact Ho]. }
  destruct Ht as [Hb Ha]. split; [exact Hb|]. split; [exact Ha|].
  intros Hall. unfold flags_agree. unfold has_action in Ha.
  rewrite Hb, (settled_holders _ Hall), <- Ha.
  destruct (current_action (robot (exec E ls (exec E before (initial now)))));
    split; congruence.
Qed.

Lemma flags_agree_in_orderly_runs_witness :
  existsb in_flight (threads (exec stocked stopped_wave (initial 0))) = false
  /\ orderly stocked dance_claimed (exec stocked stopped_wave (initial 0)) = true
  /\ forallb settled
       (threads (exec stocked (stopped_wave ++ dance_claimed) (initial 0))) = true
  /\ is_moving (robot (exec stocked (stopped_wave ++ dance_claimed) (initial 0))) = true
  /\ flags_agree (exec stocked (stopped_wave ++ dance_claimed) (initial 0)).
Proof.
  split; [vm_compute; reflexivity|]. split; [vm_compute; reflexivity|].
  split; [vm_compute; reflexivity|]. split; [vm_compute; reflexivity|].
  exact (proj2 (proj2 (flags_agree_in_orderly_runs stocked stopped_wave dance_claimed 0
                         eq_refl eq_refl))
           eq_refl).
Defined.

(** C2, as stated, fails in three ways. A stop requested while the
    stored wave plays clears [is_moving] and leaves [current_action] at
    "wave". Between the two assignments of a claim [is_moving] is set
    and [current_action] is not. And when a nod claims the engine
    between the two assignments of the release of a wave, the nod plays
    with [is_moving] set and [current_action] cleared by the wave. *)
Lemma flags_disagree :
  (is_moving (robot (exec stocked stop_while_playing (initial 0))) = false
   /\ current_action (robot (exec stocked stop_while_playing (initial 0))) = Some "wave"
   /\ ~ flags_agree (exec stocked stop_while_playing (initial 0)))
  /\ (is_moving (robot (exec stocked wave_claiming (initial 0))) = true
      /\ current_action (robot (exec stocked wave_claiming (initial 0))) = None
      /\ ~ flags_agree (exec stocked wave_claiming (initial 0)))
  /\ (threads (exec bare nod_over_wave (initial 0)) = [T_done; T_body (K_simple Nod)]
      /\ is_moving (robot (exec bare nod_over_wave (initial 0))) = true
      /\ current_action (robot (exec bare nod_over_wave (initial 0))) = None
      /\ ~ flags_agree (exec bare nod_over_wave (initial 0))).
Proof.
  assert (A1 : is_moving (robot (exec stocked stop_while_playing (initial 0))) = false)
    by (vm_compute; reflexivity).
  assert (A2 : current_action (robot (exec stocked stop_while_playing (initial 0)))
               = Some "wave") by (vm_compute; reflexivity).
  assert (B1 : is_moving (robot (exec stocked wave_claiming (initial 0))) = true)
    by (vm_compute; reflexivity).
  assert (B2 : current_action (robot (exec stocked wave_claiming (initial 0))) = None)
    by (vm_compute; reflexivity).
  assert (C0 : threads (exec bare nod_over_wave (initial 0))
               = [T_done; T_body (K_simple Nod)]) by (vm_compute; reflexivity).
  assert (C1 : is_moving (robot (exec bare nod_over_wave (initial 0))) = true)
    by (vm_compute; reflexivity).
  assert (C2 : current_action (robot (exec bare nod_over_wave (initial 0))) = None)
    by (vm_compute; reflexivity).
  unfold flags_agree. rewrite A1, A2, B1, B2, C1, C2.
  repeat split; try assumption.
  - intros [_ H]. assert (false = true) by (apply H; discriminate). discriminate.
  - intros [H _]. now apply H.
  - intros [H _]. now apply H.
Qed.
